(** * MFEM Example 1 ([examples/ex1.cpp]): the Laplace driver

    A shallow embedding of the driver [main] of [examples/ex1.cpp] and of
    the library operations it calls.  The driver is embedded statement by
    statement; the library operations ([Mesh], [FiniteElementSpace],
    [LinearForm], [BilinearForm], [GSSmoother], [PCG], the streams) come
    from [mfem.hpp] and are modelled from the specification.

    Conventions.
    - A C++ [double] is modelled by a real number of [R]: rounding,
      infinities and NaN are not represented.
    - A C++ [int] is modelled by [Z]; no value of the driver approaches the
      machine bounds.
    - The argument vector holds at least the program name.
    - Every call that the driver makes is recorded, in program order, in a
      trace of [Event]s carried by a state monad; a library call returns to
      the driver. *)

From Stdlib Require Import Reals ZArith List String Ascii Bool Lia Lra.
From ExtLib Require Import Structures.Monad Structures.MonadState.
From ExtLib Require Import Data.Monads.StateMonad.
Import ListNotations.
Import MonadNotation.
Local Open Scope monad_scope.

(** ** Dense views of vectors and matrices *)

(** Modelled from the spec: [Vector] comes from [mfem.hpp]; a vector of
    size [n] is viewed through its entries, a function on the indices below
    [n]. *)
Definition Vec := nat -> R.

(** Modelled from the spec: [SparseMatrix] comes from [mfem.hpp]; a matrix
    of size [n x n] is viewed through its entries, a function of the row
    and the column (an entry outside the sparsity pattern is 0). *)
Definition Matrix := nat -> nat -> R.

(** Sum of [f 0 .. f (n-1)], in index order. *)
Fixpoint sum_n (n : nat) (f : nat -> R) : R :=
  match n with
  | O => 0%R
  | S k => (sum_n k f + f k)%R
  end.

Definition dot (n : nat) (u v : Vec) : R := sum_n n (fun i => (u i * v i)%R).

Definition norm (n : nat) (u : Vec) : R := sqrt (dot n u u).

(** [y = A x] *)
Definition Mult (n : nat) (A : Matrix) (x : Vec) : Vec :=
  fun i => sum_n n (fun j => (A i j * x j)%R).

(** [x + a * y] *)
Definition axpy (a : R) (y x : Vec) : Vec := fun i => (x i + a * y i)%R.

Definition vsub (u v : Vec) : Vec := fun i => (u i - v i)%R.

Definition vzero : Vec := fun _ => 0%R.

Definition vset (v : Vec) (i : nat) (a : R) : Vec :=
  fun k => if Nat.eqb k i then a else v k.

Definition symmetric (n : nat) (A : Matrix) : Prop :=
  forall i j, (i < n)%nat -> (j < n)%nat -> A i j = A j i.

(** ** Mesh *)

Inductive Geometry := Segment | Triangle | Square | Tetrahedron | Cube.

(** Modelled from the spec: an element is an ordered list of vertex indices
    with a geometry type. *)
Record Element := { el_geom : Geometry; el_vertices : list nat }.

(** Modelled from the spec: a boundary facet is a list of vertex indices
    with an integer attribute tag. *)
Record BdrElement := { bdr_vertices : list nat; bdr_attribute : Z }.

(** Modelled from the spec: [Mesh] comes from [mfem.hpp]; it holds the
    dimension, the vertex coordinates, the elements and the boundary
    facets, each in order. *)
Record Mesh := {
  Dimension : Z;
  vertices : list (list R);
  elements : list Element;
  boundary : list BdrElement
}.

Definition GetNE (mesh : Mesh) : Z := Z.of_nat (List.length (elements mesh)).

Definition GetNV (mesh : Mesh) : nat := List.length (vertices mesh).

(** Modelled from the spec: [Mesh::bdr_attributes] comes from
    [mfem.hpp]; it holds the attribute tags that occur on the boundary
    facets, each once. *)
Definition bdr_attributes (mesh : Mesh) : list Z :=
  nodup Z.eq_dec (map bdr_attribute (boundary mesh)).

(** ** Finite element space (linear elements) *)

(** Modelled from the spec: [FiniteElementSpace] with [LinearFECollection]
    comes from [mfem.hpp]; there is one unknown per mesh vertex and the
    degrees of freedom of an element are its vertices. *)
Record FiniteElementSpace := { fes_mesh : Mesh }.

Definition NDofs (fes : FiniteElementSpace) : nat := GetNV (fes_mesh fes).

Definition no_element : Element := {| el_geom := Segment; el_vertices := [] |}.

Definition GetElementDofs (fes : FiniteElementSpace) (e : nat) : list nat :=
  el_vertices (nth e (elements (fes_mesh fes)) no_element).

(** Modelled from the spec: [GridFunction] comes from [mfem.hpp]; one
    value per degree of freedom of its space. *)
Record GridFunction := { gf_fes : FiniteElementSpace; gf_data : Vec }.

(** ** Collaborators *)

(** Modelled from the spec: the parts of the library that the
    specification leaves to collaborators (parsing, refinement,
    reference-element data and the serializers) come from [mfem.hpp] and
    are taken as parameters. *)
Class Library := {
  (** [Mesh(istream &, 1, 1)]: the mesh described by the contents of a file *)
  Mesh_read : string -> Mesh;
  (** [Mesh::UniformRefinement] *)
  UniformRefinement : Mesh -> Mesh;
  (** number of quadrature points used on element [e] *)
  quad_points : Mesh -> nat -> nat;
  (** quadrature weight at point [q] of element [e], times the Jacobian
      determinant *)
  quad_weight : Mesh -> nat -> nat -> R;
  (** value at point [q] of element [e] of the local basis function [i] *)
  shape : Mesh -> nat -> nat -> nat -> R;
  (** component [k] of the physical gradient at point [q] of element [e]
      of the local basis function [i] *)
  dshape : Mesh -> nat -> nat -> nat -> nat -> R;
  (** [Mesh::Print] *)
  Mesh_Print : Mesh -> string;
  (** [GridFunction::Save] *)
  GridFunction_Save : GridFunction -> string
}.

(** ** Integrators and assembly *)

Section Assembly.
Context {L : Library}.

(** Modelled from the spec: [DomainLFIntegrator] comes from [mfem.hpp];
    entry [i] of the local vector is the quadrature of [phi_i * f] over the
    element. *)
Definition DomainLFIntegrator (mesh : Mesh) (f : R) (e : nat) : Vec :=
  fun i =>
    sum_n (quad_points mesh e)
      (fun q => (quad_weight mesh e q * (f * shape mesh e q i))%R).

(** Modelled from the spec: [DiffusionIntegrator] comes from [mfem.hpp];
    entry [(i, j)] of the local matrix is the quadrature of
    [kappa * grad phi_i . grad phi_j] over the element. *)
Definition DiffusionIntegrator (mesh : Mesh) (kappa : R) (e : nat) : Matrix :=
  fun i j =>
    sum_n (quad_points mesh e)
      (fun q =>
         (quad_weight mesh e q *
          (kappa *
           sum_n (Z.to_nat (Dimension mesh))
             (fun k => dshape mesh e q i k * dshape mesh e q j k)))%R).

(** The contribution of a local vector to entry [i] of the global one. *)
Definition scatter_vec (dofs : list nat) (elvect : Vec) : Vec :=
  fun i =>
    sum_n (List.length dofs)
      (fun a => if Nat.eqb (nth a dofs O) i then elvect a else 0%R).

(** The contribution of a local matrix to entry [(i, j)] of the global
    one. *)
Definition scatter_mat (dofs : list nat) (elmat : Matrix) : Matrix :=
  fun i j =>
    sum_n (List.length dofs)
      (fun a =>
         sum_n (List.length dofs)
           (fun b =>
              if Nat.eqb (nth a dofs O) i && Nat.eqb (nth b dofs O) j
              then elmat a b else 0%R)).

(** Modelled from the spec: [LinearForm::Assemble] comes from [mfem.hpp];
    the global vector is the sum, over the elements in mesh order, of the
    local vectors scattered through the element's degrees of freedom. *)
Definition LinearForm_Assemble (fes : FiniteElementSpace) (f : R) : Vec :=
  fun i =>
    sum_n (List.length (elements (fes_mesh fes)))
      (fun e =>
         scatter_vec (GetElementDofs fes e)
           (DomainLFIntegrator (fes_mesh fes) f e) i).

(** Modelled from the spec: [BilinearForm::Assemble] comes from
    [mfem.hpp]; the global matrix is the sum, over the elements in mesh
    order, of the local matrices scattered through the element's degrees of
    freedom. *)
Definition BilinearForm_Assemble (fes : FiniteElementSpace) (kappa : R)
  : Matrix :=
  fun i j =>
    sum_n (List.length (elements (fes_mesh fes)))
      (fun e =>
         scatter_mat (GetElementDofs fes e)
           (DiffusionIntegrator (fes_mesh fes) kappa e) i j).

End Assembly.

(** ** Elimination of the essential boundary conditions *)

(** Modelled from the spec: the marker array has one flag per boundary
    attribute of the mesh, in the order of [bdr_attributes]; a non-zero
    flag marks the attribute as essential. *)
Definition attr_is_ess (mesh : Mesh) (ess_bdr : list Z) (attr : Z) : bool :=
  existsb (fun af => Z.eqb (fst af) attr && negb (Z.eqb (snd af) 0))
    (combine (bdr_attributes mesh) ess_bdr).

(** Modelled from the spec: a degree of freedom is essential when it lies
    on a boundary facet whose attribute is marked. *)
Definition is_ess_dof (mesh : Mesh) (ess_bdr : list Z) (d : nat) : bool :=
  existsb
    (fun be =>
       attr_is_ess mesh ess_bdr (bdr_attribute be) &&
       existsb (Nat.eqb d) (bdr_vertices be))
    (boundary mesh).

Definition GetEssentialDofs (fes : FiniteElementSpace) (ess_bdr : list Z)
  : list nat :=
  filter (is_ess_dof (fes_mesh fes) ess_bdr) (seq 0 (NDofs fes)).


(** Modelled from the spec: for the degree of freedom [d] with prescribed
    value [v], [rhs[j] -= A[j][d] * v] for every other [j]; row and column
    [d] are zeroed except [A[d][d] = 1]; [rhs[d] = v]. *)
Definition EliminateRowCol (d : nat) (v : R) (Ab : Matrix * Vec)
  : Matrix * Vec :=
  let A := fst Ab in
  let rhs := snd Ab in
  (fun i j =>
     if Nat.eqb i d || Nat.eqb j d
     then (if Nat.eqb i d && Nat.eqb j d then 1%R else 0%R)
     else A i j,
   fun j => if Nat.eqb j d then v else (rhs j - A j d * v)%R).

(** Modelled from the spec: [BilinearForm::EliminateEssentialBC] comes from
    [mfem.hpp]; every essential degree of freedom is eliminated in turn,
    its prescribed value read from the solution guess. *)
Definition EliminateEssentialBC (fes : FiniteElementSpace)
  (ess_bdr : list Z) (sol rhs : Vec) (A : Matrix) : Matrix * Vec :=
  fold_left (fun Ab d => EliminateRowCol d (sol d) Ab)
    (GetEssentialDofs fes ess_bdr) (A, rhs).

(** ** Preconditioner and conjugate gradient solver *)

(** Modelled from the spec: one Gauss-Seidel row update,
    [z[i] = (r[i] - sum_{j<>i} A[i][j] z[j]) / A[i][i]]. *)
Definition gs_row (n : nat) (A : Matrix) (r : Vec) (z : Vec) (i : nat) : Vec :=
  vset z i
    ((r i - sum_n n (fun j => if Nat.eqb j i then 0 else A i j * z j))
     / A i i)%R.

(** Modelled from the spec: [GSSmoother] comes from [mfem.hpp]; the
    symmetric Gauss-Seidel smoother of the matrix applies, from the zero
    vector, one forward sweep over the rows and then one backward sweep. *)
Definition GSSmoother (n : nat) (A : Matrix) (r : Vec) : Vec :=
  let forward := fold_left (gs_row n A r) (seq 0 n) vzero in
  fold_left (gs_row n A r) (rev (seq 0 n)) forward.

Inductive PCGStatus := Converged | NotConverged.

Record PCGState := {
  pcg_iter : nat;
  pcg_x : Vec;
  pcg_r : Vec;
  pcg_z : Vec;
  pcg_p : Vec
}.

Section Solver.
Variable n : nat.
Variable A : Matrix.
Variable B : Vec -> Vec.

(** Modelled from the spec: residual of the initial guess, preconditioned
    residual and first search direction. *)
Definition pcg_init (b x0 : Vec) : PCGState :=
  let r := vsub b (Mult n A x0) in
  let z := B r in
  {| pcg_iter := 0; pcg_x := x0; pcg_r := r; pcg_z := z; pcg_p := z |}.

(** Modelled from the spec: one iteration of the standard preconditioned
    conjugate gradient recurrence. *)
Definition pcg_step (st : PCGState) : PCGState :=
  let Ap := Mult n A (pcg_p st) in
  let alpha := (dot n (pcg_r st) (pcg_z st) / dot n (pcg_p st) Ap)%R in
  let x' := axpy alpha (pcg_p st) (pcg_x st) in
  let r' := axpy (- alpha) Ap (pcg_r st) in
  let z' := B r' in
  let beta := (dot n r' z' / dot n (pcg_r st) (pcg_z st))%R in
  {| pcg_iter := S (pcg_iter st);
     pcg_x := x';
     pcg_r := r';
     pcg_z := z';
     pcg_p := axpy beta (pcg_p st) z' |}.

(** Modelled from the spec: the solver as a state machine; stop with
    success as soon as the residual norm is within the tolerance, stop with
    failure when the iteration budget is used up, iterate otherwise. *)
Fixpoint pcg_loop (tol : R) (budget : nat) (st : PCGState)
  : PCGStatus * PCGState :=
  if Rle_dec (norm n (pcg_r st)) tol then (Converged, st)
  else
    match budget with
    | O => (NotConverged, st)
    | S k => pcg_loop tol k (pcg_step st)
    end.

(** Modelled from the spec: the tolerance
    [max (relTol * |initial residual|, absTol)]. *)
Definition pcg_tol (b x0 : Vec) (rtol atol : R) : R :=
  Rmax (rtol * norm n (pcg_r (pcg_init b x0))) atol.

(** Modelled from the spec: [PCG] comes from [mfem.hpp];
    [Solve(A, preconditioner, b, x0, printLevel, maxIter, relTol, absTol)]
    returns its terminal state (converged or not) with the last
    iterate. *)
Definition PCG (b x0 : Vec) (print_iter max_iter : Z) (rtol atol : R)
  : PCGStatus * PCGState :=
  pcg_loop (pcg_tol b x0 rtol atol) (Z.to_nat max_iter) (pcg_init b x0).

End Solver.


(** ** The world of the driver *)

Inductive Stream :=
| Cout
| Cerr
| OFile (path : string)
| OSock (host : string) (port : Z).

(** One event per call of the driver, in program order. *)
Inductive Event :=
| EvWrite (s : Stream) (data : string)
| EvIfstreamOpen (path : string) (ok : bool)
| EvIfstreamClose
| EvMeshRead
| EvUniformRefinement
| EvFiniteElementSpace
| EvLinearFormAssemble
| EvGridFunctionAssign
| EvBilinearFormAssemble
| EvEliminateEssentialBC
| EvFinalize
| EvGSSmoother
| EvPCG (print_iter max_iter : Z) (rtol atol : R) (status : PCGStatus)
| EvOfstreamOpen (path : string) (ok : bool)
| EvSockConnect (host : string) (port : Z) (ok : bool)
| EvSockSend
| EvDelete (object : string).

Definition Trace := list Event.

(** What the driver receives from its surroundings. *)
Record Env := {
  (** the argument vector, the program name first *)
  argv : list string;
  (** the contents of a file that can be opened for reading *)
  file_contents : string -> option string;
  (** whether a file can be opened for writing *)
  can_create : string -> bool;
  (** whether a server accepts the connection *)
  can_connect : string -> Z -> bool
}.

Definition argc (env : Env) : Z := Z.of_nat (List.length (argv env)).

Definition IO := state Trace.

Definition emit (e : Event) : IO unit :=
  t <- get ;; put (t ++ [e]).

(** [for (int l = lo; l < hi; l++) body] *)
Fixpoint for_fuel {S : Type} (fuel : nat) (l hi : Z)
  (body : Z -> S -> IO S) (s : S) : IO S :=
  match fuel with
  | O => ret s
  | Datatypes.S k =>
      if (l <? hi)%Z
      then s' <- body l s ;; for_fuel k (l + 1)%Z hi body s'
      else ret s
  end.

Definition for_lt {S : Type} (lo hi : Z) (body : Z -> S -> IO S) (s : S)
  : IO S :=
  for_fuel (Z.to_nat (hi - lo)) lo hi body s.

Definition nl : string := String (ascii_of_nat 10) EmptyString.

(** The text of a stream up to its first line break. *)
Fixpoint first_line (s : string) : string :=
  match s with
  | EmptyString => EmptyString
  | String c rest =>
      if Ascii.eqb c (ascii_of_nat 10) then EmptyString
      else String c (first_line rest)
  end.

(** What has been written to a stream, in order. *)
Fixpoint written (s : Stream) (t : Trace) : string :=
  match t with
  | [] => EmptyString
  | EvWrite s' data :: t' =>
      match s, s' with
      | Cout, Cout | Cerr, Cerr => String.append data (written s t')
      | OFile p, OFile p' =>
          if String.eqb p p' then String.append data (written s t')
          else written s t'
      | OSock h q, OSock h' q' =>
          if String.eqb h h' && Z.eqb q q'
          then String.append data (written s t')
          else written s t'
      | _, _ => written s t'
      end
  | _ :: t' => written s t'
  end.

(** ** The driver *)

Section Driver.
Context {L : Library}.

(** The objects the driver holds once the system is solved. *)
Record Objects := {
  mesh : Mesh;
  fespace : FiniteElementSpace;
  b : Vec;
  x : GridFunction;
  a : Matrix
}.

(** [ifstream imesh(path)]: the contents when the file can be opened. *)
Definition ifstream_open (env : Env) (path : string) : IO (option string) :=
  let r := file_contents env path in
  emit (EvIfstreamOpen path (match r with Some _ => true | None => false end)) ;;
  ret r.

Definition Mesh_new (imesh : string) : IO Mesh :=
  emit EvMeshRead ;; ret (Mesh_read imesh).

Definition Mesh_UniformRefinement (mesh : Mesh) : IO Mesh :=
  emit EvUniformRefinement ;; ret (UniformRefinement mesh).

Definition FiniteElementSpace_new (mesh : Mesh) : IO FiniteElementSpace :=
  emit EvFiniteElementSpace ;; ret {| fes_mesh := mesh |}.

Definition LinearForm_Assemble_call (fes : FiniteElementSpace) (f : R)
  : IO Vec :=
  emit EvLinearFormAssemble ;; ret (LinearForm_Assemble fes f).

(** [GridFunction x(fespace); x = 0.0;] *)
Definition GridFunction_assign (fes : FiniteElementSpace) (v : R)
  : IO GridFunction :=
  emit EvGridFunctionAssign ;;
  ret {| gf_fes := fes; gf_data := fun _ => v |}.

Definition BilinearForm_Assemble_call (fes : FiniteElementSpace) (kappa : R)
  : IO Matrix :=
  emit EvBilinearFormAssemble ;; ret (BilinearForm_Assemble fes kappa).

Definition EliminateEssentialBC_call (fes : FiniteElementSpace)
  (ess_bdr : list Z) (sol : GridFunction) (rhs : Vec) (A : Matrix)
  : IO (Matrix * Vec) :=
  emit EvEliminateEssentialBC ;;
  ret (EliminateEssentialBC fes ess_bdr (gf_data sol) rhs A).

(** [Finalize] fixes the sparse structure; the entries stay as they are. *)
Definition Finalize (A : Matrix) : IO Matrix :=
  emit EvFinalize ;; ret A.

Definition GSSmoother_new (n : nat) (A : Matrix) : IO (Vec -> Vec) :=
  emit EvGSSmoother ;; ret (GSSmoother n A).

(** The solver overwrites the grid function with its last iterate and
    reports its terminal state. *)
Definition PCG_call (A : Matrix) (M : Vec -> Vec) (b : Vec)
  (x : GridFunction) (print_iter max_iter : Z) (rtol atol : R)
  : IO GridFunction :=
  let res :=
    PCG (NDofs (gf_fes x)) A M b (gf_data x) print_iter max_iter rtol atol in
  emit (EvPCG print_iter max_iter rtol atol (fst res)) ;;
  ret {| gf_fes := gf_fes x; gf_data := pcg_x (snd res) |}.

Definition ofstream_open (env : Env) (path : string) : IO Stream :=
  emit (EvOfstreamOpen path (can_create env path)) ;; ret (OFile path).

Definition osockstream_open (env : Env) (port : Z) (host : string)
  : IO Stream :=
  emit (EvSockConnect host port (can_connect env host port)) ;;
  ret (OSock host port).

Definition write (s : Stream) (data : string) : IO unit :=
  emit (EvWrite s data).

(** Modelled from the spec: [x.Save(out)] is a call on the object [x]
    itself; the serializer writes the text of the grid function and leaves
    the object as it is, so the object after the call is the object before
    it. *)
Definition GridFunction_Save_call (x : GridFunction) (out : Stream)
  : IO GridFunction :=
  write out (GridFunction_Save x) ;; ret x.

(** Modelled from the spec: [mesh->Print(out)] is a call on the mesh
    itself; the mesh is read-only once refined, so the mesh after the call
    is the mesh before it. *)
Definition Mesh_Print_call (mesh : Mesh) (out : Stream) : IO Mesh :=
  write out (Mesh_Print mesh) ;; ret mesh.

(** [(int)floor(log(50000./mesh->GetNE())/log(2.)/mesh->Dimension())] *)
Definition ref_levels (mesh : Mesh) : Z :=
  Int_part (ln (50000 / IZR (GetNE mesh)) / ln 2 / IZR (Dimension mesh)).

(** Steps 1 to 7 of [main]: read and refine the mesh, assemble, eliminate
    the boundary conditions and solve. *)
Definition solve_stages (imesh : string) : IO Objects :=
  (* 1 *)
  mesh <- Mesh_new imesh ;;
  emit EvIfstreamClose ;;
  (* 2 *)
  mesh <- for_lt 0 (ref_levels mesh)
            (fun l mesh => Mesh_UniformRefinement mesh) mesh ;;
  (* 3 *)
  fespace <- FiniteElementSpace_new mesh ;;
  (* 4 *)
  let one := 1%R in
  b <- LinearForm_Assemble_call fespace one ;;
  (* 5 *)
  x <- GridFunction_assign fespace 0%R ;;
  (* 6 *)
  a <- BilinearForm_Assemble_call fespace one ;;
  let ess_bdr := repeat 1%Z (List.length (bdr_attributes mesh)) in
  ab <- EliminateEssentialBC_call fespace ess_bdr x b a ;;
  let a := fst ab in
  let b := snd ab in
  A <- Finalize a ;;
  (* 7 *)
  M <- GSSmoother_new (NDofs fespace) A ;;
  x <- PCG_call A M b x 1 200 1e-12 1e-28 ;;
  ret {| mesh := mesh; fespace := fespace; b := b; x := x; a := A |}.

(** Steps 8 and 9 of [main]: save the solution and send it to GLVis.  The
    grid function and the mesh are objects of the driver on which [Save]
    and [Print] are called: each call hands back the object it was called
    on, the second [Save] is called on the grid function that the first
    one left, and the stage ends with the objects as the calls left them.
    The two methods are parameters of this definition; [main] uses the
    serializers of the library. *)
Definition output_stages_with
  (Save : GridFunction -> Stream -> IO GridFunction)
  (Print : Mesh -> Stream -> IO Mesh)
  (env : Env) (o : Objects) : IO Objects :=
  (* 8 *)
  sol_ofs <- ofstream_open env "sol.gf" ;;
  x <- Save (x o) sol_ofs ;;
  (* 9 *)
  let vishost := "localhost"%string in
  let visport := 19916%Z in
  sol_sock <- osockstream_open env visport vishost ;;
  (if (Dimension (mesh o) =? 2)%Z
   then write sol_sock (String.append "fem2d_gf_data" nl)
   else write sol_sock (String.append "fem3d_gf_data" nl)) ;;
  mesh <- Print (mesh o) sol_sock ;;
  x <- Save x sol_sock ;;
  emit EvSockSend ;;
  ret {| mesh := mesh; fespace := fespace o; b := b o; x := x; a := a o |}.

Definition output_stages (env : Env) (o : Objects) : IO Objects :=
  output_stages_with GridFunction_Save_call Mesh_Print_call env o.

(** Step 10 of [main]. *)
Definition free_stage : IO unit :=
  emit (EvDelete "a") ;;
  emit (EvDelete "b") ;;
  emit (EvDelete "fespace") ;;
  emit (EvDelete "fec") ;;
  emit (EvDelete "mesh").

(** Steps 1 to 9, with the objects the driver holds at the end. *)
Definition main_body (env : Env) (imesh : string) : IO Objects :=
  o <- solve_stages imesh ;;
  output_stages env o.

Definition main (env : Env) : IO Z :=
  if (argc env =? 1)%Z then
    write Cout (String.append "Usage: ex1 <mesh_file>" nl) ;;
    ret 1%Z
  else
    let path := nth 1 (argv env) EmptyString in
    imesh <- ifstream_open env path ;;
    match imesh with
    | None =>
        write Cerr
          (String.append "can not open mesh file: " (String.append path nl)) ;;
        ret 2%Z
    | Some contents =>
        _ <- main_body env contents ;;
        free_stage ;;
        ret 0%Z
    end.

(** *** The values held at the program points of [main] *)

(** The mesh after step 2. *)
Definition refined_mesh (imesh : string) : Mesh :=
  Nat.iter (Z.to_nat (ref_levels (Mesh_read imesh))) UniformRefinement
    (Mesh_read imesh).

Definition the_fespace (imesh : string) : FiniteElementSpace :=
  {| fes_mesh := refined_mesh imesh |}.

(** [Array<int> ess_bdr(mesh->bdr_attributes.Size()); ess_bdr = 1;] *)
Definition the_ess_bdr (imesh : string) : list Z :=
  repeat 1%Z (List.length (bdr_attributes (refined_mesh imesh))).

(** Matrix and right-hand side after [Assemble]. *)
Definition assembled (imesh : string) : Matrix * Vec :=
  (BilinearForm_Assemble (the_fespace imesh) 1,
   LinearForm_Assemble (the_fespace imesh) 1).

(** Matrix and right-hand side after [EliminateEssentialBC]. *)
Definition eliminated (imesh : string) : Matrix * Vec :=
  EliminateEssentialBC (the_fespace imesh) (the_ess_bdr imesh)
    (fun _ => 0%R) (snd (assembled imesh)) (fst (assembled imesh)).

(** Terminal state of the solver. *)
Definition solver_result (imesh : string) : PCGStatus * PCGState :=
  PCG (NDofs (the_fespace imesh)) (fst (eliminated imesh))
    (GSSmoother (NDofs (the_fespace imesh)) (fst (eliminated imesh)))
    (snd (eliminated imesh)) (fun _ => 0%R) 1 200 1e-12 1e-28.

Definition solved_objects (imesh : string) : Objects :=
  {| mesh := refined_mesh imesh;
     fespace := the_fespace imesh;
     b := snd (eliminated imesh);
     x := {| gf_fes := the_fespace imesh;
             gf_data := pcg_x (snd (solver_result imesh)) |};
     a := fst (eliminated imesh) |}.

Definition solve_trace (imesh : string) : Trace :=
  [EvMeshRead; EvIfstreamClose] ++
  repeat EvUniformRefinement (Z.to_nat (ref_levels (Mesh_read imesh))) ++
  [EvFiniteElementSpace; EvLinearFormAssemble; EvGridFunctionAssign;
   EvBilinearFormAssemble; EvEliminateEssentialBC; EvFinalize;
   EvGSSmoother; EvPCG 1 200 1e-12 1e-28 (fst (solver_result imesh))].

(** The tag of the socket stream. *)
Definition socket_tag (m : Mesh) : string :=
  if (Dimension m =? 2)%Z then "fem2d_gf_data"%string
  else "fem3d_gf_data"%string.

Definition file_trace (env : Env) (o : Objects) : Trace :=
  [EvOfstreamOpen "sol.gf" (can_create env "sol.gf");
   EvWrite (OFile "sol.gf") (GridFunction_Save (x o))].

Definition socket_trace (env : Env) (o : Objects) : Trace :=
  [EvSockConnect "localhost" 19916 (can_connect env "localhost" 19916%Z);
   EvWrite (OSock "localhost" 19916) (String.append (socket_tag (mesh o)) nl);
   EvWrite (OSock "localhost" 19916) (Mesh_Print (mesh o));
   EvWrite (OSock "localhost" 19916) (GridFunction_Save (x o));
   EvSockSend].

Definition free_trace : Trace :=
  [EvDelete "a"; EvDelete "b"; EvDelete "fespace"; EvDelete "fec";
   EvDelete "mesh"].

End Driver.

(** ** Observations on traces *)

Definition is_eliminate (e : Event) : bool :=
  match e with EvEliminateEssentialBC => true | _ => false end.

Definition is_refinement (e : Event) : bool :=
  match e with EvUniformRefinement => true | _ => false end.

(** The events of the pipeline stages: everything but the messages of the
    command-line check and the attempt to open the mesh file. *)
Definition is_stage_event (e : Event) : bool :=
  match e with
  | EvWrite Cout _ | EvWrite Cerr _ | EvIfstreamOpen _ _ => false
  | _ => true
  end.

Definition is_socket_event (e : Event) : bool :=
  match e with
  | EvSockConnect _ _ _ | EvSockSend | EvWrite (OSock _ _) _ => true
  | _ => false
  end.

Definition is_output_event (e : Event) : bool :=
  match e with
  | EvOfstreamOpen _ _ | EvWrite (OFile _) _ => true
  | _ => is_socket_event e
  end.

Definition is_solve_event (e : Event) : bool :=
  match e with EvPCG _ _ _ _ _ => true | _ => false end.

Definition count (p : Event -> bool) (t : Trace) : nat :=
  List.length (filter p t).

(** The file a run leaves on disk: what was written to it, when it could
    be created. *)
Definition file_on_disk (path : string) (t : Trace) : option string :=
  if existsb
       (fun e =>
          match e with
          | EvOfstreamOpen p true => String.eqb p path
          | _ => false
          end) t
  then Some (written (OFile path) t)
  else None.

Definition run_main {L : Library} (env : Env) : Z * Trace :=
  runState (main env) [].

(** The number of times the loop of step 2 runs, computed on the integers:
    [floor (log2 (50000 / NE) / Dimension)] when the mesh has at most 50000
    elements, and no refinement otherwise. *)
Definition refinement_count (mesh : Mesh) : nat :=
  if (GetNE mesh <=? 50000)%Z
  then Z.to_nat (Z.log2 (50000 / GetNE mesh) / Dimension mesh)
  else O.

(** ** A sample configuration

    The unit square cut into four triangles around its centre, with one
    attribute per side, and the simplest collaborators. *)

Definition tri (v0 v1 v2 : nat) : Element :=
  {| el_geom := Triangle; el_vertices := [v0; v1; v2] |}.

Definition edge (v0 v1 : nat) (attr : Z) : BdrElement :=
  {| bdr_vertices := [v0; v1]; bdr_attribute := attr |}.

Definition square_mesh : Mesh :=
  {| Dimension := 2;
     vertices := [[0; 0]; [1; 0]; [1; 1]; [0; 1]; [1 / 2; 1 / 2]]%R;
     elements := [tri 0 1 4; tri 1 2 4; tri 2 3 4; tri 3 0 4];
     boundary := [edge 0 1 1; edge 1 2 2; edge 2 3 3; edge 3 0 4] |}.

(** A stand-in for the refinement that honours its element count: every
    element is replaced by [2 ^ Dimension] elements. *)
Definition split_elements (m : Mesh) : Mesh :=
  {| Dimension := Dimension m;
     vertices := vertices m;
     elements :=
       flat_map (fun e => repeat e (Z.to_nat (2 ^ Dimension m)))
         (elements m);
     boundary := boundary m |}.

(** A mesh with more than 50000 elements. *)
Definition crowded_mesh : Mesh :=
  {| Dimension := 2;
     vertices := [[0; 0]; [1; 0]; [0; 1]]%R;
     elements := repeat (tri 0 1 2) (Z.to_nat 50001);
     boundary := [edge 0 1 1; edge 1 2 1; edge 2 0 1] |}.

Definition sample_library : Library :=
  {| Mesh_read := fun _ => square_mesh;
     UniformRefinement := split_elements;
     quad_points := fun _ _ => 1%nat;
     quad_weight := fun _ _ _ => (1 / 4)%R;
     shape := fun _ _ _ _ => (1 / 3)%R;
     dshape := fun _ _ _ i k => if Nat.eqb i k then 1%R else 0%R;
     Mesh_Print := fun _ => "mesh"%string;
     GridFunction_Save := fun _ => "solution"%string |}.

Definition sample_env : Env :=
  {| argv := ["ex1"; "square.mesh2d"]%string;
     file_contents :=
       fun p =>
         if String.eqb p "square.mesh2d" then Some "square"%string else None;
     can_create := fun _ => true;
     can_connect := fun _ _ => false |}.

Definition no_argument_env : Env :=
  {| argv := ["ex1"]%string;
     file_contents := fun _ => None;
     can_create := fun _ => true;
     can_connect := fun _ _ => false |}.

Definition missing_file_env : Env :=
  {| argv := ["ex1"; "nowhere.mesh2d"]%string;
     file_contents := fun _ => None;
     can_create := fun _ => true;
     can_connect := fun _ _ => false |}.

(** An event without the outcome of opening the file or of connecting the
    socket. *)
Definition forget_outcome (e : Event) : Event :=
  match e with
  | EvOfstreamOpen p _ => EvOfstreamOpen p true
  | EvSockConnect h q _ => EvSockConnect h q true
  | _ => e
  end.

(** The sample invocation with one more argument, on a system with other
    readable files, where only [sol.gf] can be created and every server
    but [localhost:19916] accepts connections. *)
Definition busy_env : Env :=
  {| argv := ["./ex1"; "square.mesh2d"; "extra"]%string;
     file_contents :=
       fun p =>
         if String.eqb p "square.mesh2d" then Some "square"%string
         else Some "other"%string;
     can_create := fun p => String.eqb p "sol.gf";
     can_connect :=
       fun h q => negb (String.eqb h "localhost" && Z.eqb q 19916) |}.

(** The sample invocation on a system where [sol.gf] cannot be created and
    the server accepts the connection. *)
Definition readonly_env : Env :=
  {| argv := ["ex1"; "square.mesh2d"]%string;
     file_contents :=
       fun p =>
         if String.eqb p "square.mesh2d" then Some "square"%string else None;
     can_create := fun _ => false;
     can_connect := fun _ _ => true |}.

Definition tet (v0 v1 v2 v3 : nat) : Element :=
  {| el_geom := Tetrahedron; el_vertices := [v0; v1; v2; v3] |}.

(** Four tetrahedra around an inner vertex. *)
Definition tet_mesh : Mesh :=
  {| Dimension := 3;
     vertices :=
       [[0; 0; 0]; [1; 0; 0]; [0; 1; 0]; [0; 0; 1]; [1 / 4; 1 / 4; 1 / 4]]%R;
     elements := [tet 0 1 2 4; tet 0 1 3 4; tet 0 2 3 4; tet 1 2 3 4];
     boundary :=
       [{| bdr_vertices := [0; 1; 2]%nat; bdr_attribute := 1 |};
        {| bdr_vertices := [0; 1; 3]%nat; bdr_attribute := 1 |};
        {| bdr_vertices := [0; 2; 3]%nat; bdr_attribute := 1 |};
        {| bdr_vertices := [1; 2; 3]%nat; bdr_attribute := 1 |}] |}.

(** A [Save] that does not only read: it writes a text and then clears
    the grid function it was called on. *)
Definition Save_and_clear (g : GridFunction) (out : Stream)
  : IO GridFunction :=
  write out "cleared" ;;
  ret {| gf_fes := gf_fes g; gf_data := fun _ => 0%R |}.

(** Objects on the sample mesh, with a solution that is 1 everywhere. *)
Definition sample_objects : Objects :=
  {| mesh := square_mesh;
     fespace := {| fes_mesh := square_mesh |};
     b := fun _ => 1%R;
     x := {| gf_fes := {| fes_mesh := square_mesh |};
             gf_data := fun _ => 1%R |};
     a := fun _ _ => 0%R |}.

(** * Proofs *)

(** ** Running the monad *)

Section Runs.
Context {L : Library}.

Lemma run_bind {A B : Type} (m : IO A) (f : A -> IO B) (t : Trace) :
  runState (bind m f) t = runState (f (fst (runState m t))) (snd (runState m t)).
Proof. simpl. destruct (runState m t). reflexivity. Qed.

Lemma run_ret {A : Type} (v : A) (t : Trace) :
  runState (ret v : IO A) t = (v, t).
Proof. reflexivity. Qed.

Lemma run_emit (e : Event) (t : Trace) :
  runState (emit e) t = (tt, t ++ [e]).
Proof. reflexivity. Qed.

Lemma run_write (s : Stream) (data : string) (t : Trace) :
  runState (write s data) t = (tt, t ++ [EvWrite s data]).
Proof. reflexivity. Qed.

Lemma run_Mesh_new (imesh : string) (t : Trace) :
  runState (Mesh_new imesh) t = (Mesh_read imesh, t ++ [EvMeshRead]).
Proof. reflexivity. Qed.

Lemma run_UniformRefinement (m : Mesh) (t : Trace) :
  runState (Mesh_UniformRefinement m) t =
  (UniformRefinement m, t ++ [EvUniformRefinement]).
Proof. reflexivity. Qed.

Lemma run_FiniteElementSpace_new (m : Mesh) (t : Trace) :
  runState (FiniteElementSpace_new m) t =
  ({| fes_mesh := m |}, t ++ [EvFiniteElementSpace]).
Proof. reflexivity. Qed.

Lemma run_LinearForm_Assemble (fes : FiniteElementSpace) (f : R) (t : Trace) :
  runState (LinearForm_Assemble_call fes f) t =
  (LinearForm_Assemble fes f, t ++ [EvLinearFormAssemble]).
Proof. reflexivity. Qed.

Lemma run_GridFunction_assign (fes : FiniteElementSpace) (v : R) (t : Trace) :
  runState (GridFunction_assign fes v) t =
  ({| gf_fes := fes; gf_data := fun _ => v |}, t ++ [EvGridFunctionAssign]).
Proof. reflexivity. Qed.

Lemma run_BilinearForm_Assemble (fes : FiniteElementSpace) (k : R)
  (t : Trace) :
  runState (BilinearForm_Assemble_call fes k) t =
  (BilinearForm_Assemble fes k, t ++ [EvBilinearFormAssemble]).
Proof. reflexivity. Qed.

Lemma run_EliminateEssentialBC (fes : FiniteElementSpace) (ess_bdr : list Z)
  (sol : GridFunction) (rhs : Vec) (A : Matrix) (t : Trace) :
  runState (EliminateEssentialBC_call fes ess_bdr sol rhs A) t =
  (EliminateEssentialBC fes ess_bdr (gf_data sol) rhs A,
   t ++ [EvEliminateEssentialBC]).
Proof. reflexivity. Qed.

Lemma run_Finalize (A : Matrix) (t : Trace) :
  runState (Finalize A) t = (A, t ++ [EvFinalize]).
Proof. reflexivity. Qed.

Lemma run_GSSmoother_new (n : nat) (A : Matrix) (t : Trace) :
  runState (GSSmoother_new n A) t = (GSSmoother n A, t ++ [EvGSSmoother]).
Proof. reflexivity. Qed.

Lemma run_PCG (A : Matrix) (M : Vec -> Vec) (rhs : Vec) (sol : GridFunction)
  (pl mi : Z) (rtol atol : R) (t : Trace) :
  runState (PCG_call A M rhs sol pl mi rtol atol) t =
  ({| gf_fes := gf_fes sol;
      gf_data :=
        pcg_x (snd (PCG (NDofs (gf_fes sol)) A M rhs (gf_data sol)
                      pl mi rtol atol)) |},
   t ++ [EvPCG pl mi rtol atol
           (fst (PCG (NDofs (gf_fes sol)) A M rhs (gf_data sol)
                   pl mi rtol atol))]).
Proof. reflexivity. Qed.

Lemma run_ofstream_open (env : Env) (path : string) (t : Trace) :
  runState (ofstream_open env path) t =
  (OFile path, t ++ [EvOfstreamOpen path (can_create env path)]).
Proof. reflexivity. Qed.

Lemma run_osockstream_open (env : Env) (port : Z) (host : string)
  (t : Trace) :
  runState (osockstream_open env port host) t =
  (OSock host port, t ++ [EvSockConnect host port (can_connect env host port)]).
Proof. reflexivity. Qed.

Lemma run_ifstream_open (env : Env) (path : string) (t : Trace) :
  runState (ifstream_open env path) t =
  (file_contents env path,
   t ++ [EvIfstreamOpen path
           (match file_contents env path with
            | Some _ => true
            | None => false
            end)]).
Proof. reflexivity. Qed.

Lemma run_free_stage (t : Trace) :
  runState free_stage t = (tt, t ++ free_trace).
Proof.
  unfold free_stage, free_trace. rewrite !run_bind, !run_emit. cbn [fst snd].
  rewrite <- !app_assoc. reflexivity.
Qed.

Create Rewrite HintDb run.

#[local] Hint Rewrite @run_bind @run_ret run_emit run_write run_Mesh_new
  run_UniformRefinement run_FiniteElementSpace_new run_LinearForm_Assemble
  run_GridFunction_assign run_BilinearForm_Assemble run_EliminateEssentialBC
  run_Finalize run_GSSmoother_new run_PCG run_ofstream_open
  run_osockstream_open run_ifstream_open run_free_stage : run.

(** The refinement loop runs its body [max 0 hi] times. *)
Lemma run_for_fuel (fuel : nat) (l hi : Z) (m : Mesh) (t : Trace) :
  (Z.to_nat (hi - l) <= fuel)%nat ->
  runState (for_fuel fuel l hi (fun _ m => Mesh_UniformRefinement m) m) t =
  (Nat.iter (Z.to_nat (hi - l)) UniformRefinement m,
   t ++ repeat EvUniformRefinement (Z.to_nat (hi - l))).
Proof.
  revert l m t. induction fuel as [|k IH]; intros l m t Hfuel.
  - replace (Z.to_nat (hi - l)) with O by lia. simpl. now rewrite app_nil_r.
  - cbn [for_fuel]. destruct (Z.ltb_spec l hi) as [Hlt|Hge].
    + rewrite run_bind, run_UniformRefinement. cbn [fst snd].
      rewrite IH by lia.
      replace (Z.to_nat (hi - l)) with (S (Z.to_nat (hi - (l + 1)))) by lia.
      cbn [repeat]. rewrite Nat.iter_succ_r, <- app_assoc. reflexivity.
    + replace (Z.to_nat (hi - l)) with O by lia. simpl. now rewrite app_nil_r.
Qed.

Lemma run_for_lt (hi : Z) (m : Mesh) (t : Trace) :
  runState (for_lt 0 hi (fun _ m => Mesh_UniformRefinement m) m) t =
  (Nat.iter (Z.to_nat hi) UniformRefinement m,
   t ++ repeat EvUniformRefinement (Z.to_nat hi)).
Proof.
  unfold for_lt. rewrite run_for_fuel by lia. now rewrite Z.sub_0_r.
Qed.

Lemma run_solve_stages (imesh : string) (t : Trace) :
  runState (solve_stages imesh) t =
  (solved_objects imesh, t ++ solve_trace imesh).
Proof.
  unfold solve_stages.
  rewrite run_bind, run_Mesh_new. cbn [fst snd].
  rewrite run_bind, run_emit. cbn [fst snd].
  rewrite run_bind, run_for_lt. cbn [fst snd].
  repeat (autorewrite with run; cbn [fst snd gf_data gf_fes]).
  unfold solved_objects, solve_trace.
  rewrite <- !app_assoc. cbn [app]. reflexivity.
Qed.

Lemma run_GridFunction_Save (g : GridFunction) (out : Stream) (t : Trace) :
  runState (GridFunction_Save_call g out) t =
  (g, t ++ [EvWrite out (GridFunction_Save g)]).
Proof. reflexivity. Qed.

Lemma run_Mesh_Print (m : Mesh) (out : Stream) (t : Trace) :
  runState (Mesh_Print_call m out) t =
  (m, t ++ [EvWrite out (Mesh_Print m)]).
Proof. reflexivity. Qed.


Lemma run_output_stages (env : Env) (o : Objects) (t : Trace) :
  runState (output_stages env o) t =
  (o, t ++ file_trace env o ++ socket_trace env o).
Proof.
  unfold output_stages, output_stages_with.
  rewrite run_bind, run_ofstream_open. cbn [fst snd].
  rewrite run_bind, run_GridFunction_Save. cbn [fst snd].
  rewrite run_bind, run_osockstream_open. cbn [fst snd].
  rewrite run_bind.
  unfold file_trace, socket_trace, socket_tag.
  destruct o as [m f rhs g A].
  cbn [mesh fespace b x a].
  destruct (Dimension m =? 2)%Z;
    rewrite run_write; cbn [fst snd];
    rewrite run_bind, run_Mesh_Print; cbn [fst snd];
    rewrite run_bind, run_GridFunction_Save; cbn [fst snd];
    rewrite run_bind, run_emit; cbn [fst snd];
    rewrite run_ret;
    rewrite <- !app_assoc; cbn [app]; reflexivity.
Qed.

Lemma run_main_body (env : Env) (imesh : string) (t : Trace) :
  runState (main_body env imesh) t =
  (solved_objects imesh,
   t ++ solve_trace imesh ++ file_trace env (solved_objects imesh) ++
   socket_trace env (solved_objects imesh)).
Proof.
  unfold main_body.
  rewrite run_bind, run_solve_stages. cbn [fst snd].
  rewrite run_output_stages, <- !app_assoc. reflexivity.
Qed.

Lemma run_main_usage (env : Env) :
  argc env = 1%Z ->
  run_main env =
  (1%Z, [EvWrite Cout (String.append "Usage: ex1 <mesh_file>" nl)]).
Proof.
  intros H. unfold run_main, main. rewrite H. cbn [Z.eqb Pos.eqb].
  rewrite run_bind, run_write. cbn [fst snd]. rewrite run_ret. reflexivity.
Qed.

Lemma run_main_missing (env : Env) :
  argc env <> 1%Z ->
  file_contents env (nth 1 (argv env) EmptyString) = None ->
  run_main env =
  (2%Z,
   [EvIfstreamOpen (nth 1 (argv env) EmptyString) false;
    EvWrite Cerr
      (String.append "can not open mesh file: "
         (String.append (nth 1 (argv env) EmptyString) nl))]).
Proof.
  intros Hargc Hfile. unfold run_main, main.
  destruct (Z.eqb_spec (argc env) 1) as [E|_]; [contradiction|].
  cbv zeta. rewrite run_bind, run_ifstream_open. cbn [fst snd].
  rewrite Hfile. rewrite run_bind, run_write. cbn [fst snd].
  rewrite run_ret. reflexivity.
Qed.

Lemma run_main_ok (env : Env) (contents : string) :
  argc env <> 1%Z ->
  file_contents env (nth 1 (argv env) EmptyString) = Some contents ->
  run_main env =
  (0%Z,
   [EvIfstreamOpen (nth 1 (argv env) EmptyString) true] ++
   solve_trace contents ++
   file_trace env (solved_objects contents) ++
   socket_trace env (solved_objects contents) ++
   free_trace).
Proof.
  intros Hargc Hfile. unfold run_main, main.
  destruct (Z.eqb_spec (argc env) 1) as [E|_]; [contradiction|].
  cbv zeta. rewrite run_bind, run_ifstream_open. cbn [fst snd].
  rewrite Hfile. rewrite run_bind, run_main_body. cbn [fst snd].
  rewrite run_bind, run_free_stage. cbn [fst snd].
  rewrite run_ret, <- !app_assoc. reflexivity.
Qed.

End Runs.

(** ** Observations on the traces of the driver *)

Lemma count_app (p : Event -> bool) (t1 t2 : Trace) :
  count p (t1 ++ t2) = (count p t1 + count p t2)%nat.
Proof. unfold count. now rewrite filter_app, length_app. Qed.

Lemma count_repeat_false (p : Event -> bool) (e : Event) (k : nat) :
  p e = false -> count p (repeat e k) = O.
Proof.
  intros H. unfold count. induction k as [|k IH]; [reflexivity|].
  cbn [repeat filter]. now rewrite H.
Qed.

Lemma count_repeat_true (p : Event -> bool) (e : Event) (k : nat) :
  p e = true -> count p (repeat e k) = k.
Proof.
  intros H. unfold count. induction k as [|k IH]; [reflexivity|].
  cbn [repeat filter]. rewrite H. cbn [List.length]. now f_equal.
Qed.

Lemma existsb_repeat_false (p : Event -> bool) (e : Event) (k : nat) :
  p e = false -> existsb p (repeat e k) = false.
Proof.
  intros H. induction k as [|k IH]; [reflexivity|].
  cbn [repeat existsb]. now rewrite H.
Qed.

Lemma written_app (s : Stream) (t1 t2 : Trace) :
  written s (t1 ++ t2) = String.append (written s t1) (written s t2).
Proof.
  induction t1 as [|e t1 IH]; [reflexivity|].
  cbn [app written].
  destruct e; try exact IH.
  destruct s, s0; try exact IH.
  - rewrite IH. clear. induction data; cbn; [reflexivity | now f_equal].
  - rewrite IH. clear. induction data; cbn; [reflexivity | now f_equal].
  - destruct (String.eqb path path0); [|exact IH].
    rewrite IH. clear. induction data; cbn; [reflexivity | now f_equal].
  - destruct (String.eqb host host0 && Z.eqb port port0); [|exact IH].
    rewrite IH. clear. induction data; cbn; [reflexivity | now f_equal].
Qed.

Lemma written_repeat_refinement (s : Stream) (k : nat) :
  written s (repeat EvUniformRefinement k) = EmptyString.
Proof. induction k as [|k IH]; [reflexivity | exact IH]. Qed.

Lemma append_empty_r (s : string) : String.append s EmptyString = s.
Proof. induction s; cbn; [reflexivity | now f_equal]. Qed.

Lemma first_line_tag (m : Mesh) (rest : string) :
  first_line (String.append (String.append (socket_tag m) nl) rest) =
  socket_tag m.
Proof.
  unfold socket_tag. destruct (Dimension m =? 2)%Z; reflexivity.
Qed.

Section DriverTraces.
Context {L : Library}.

Lemma written_solve_trace (s : Stream) (imesh : string) :
  written s (solve_trace imesh) = EmptyString.
Proof.
  unfold solve_trace. rewrite !written_app, written_repeat_refinement.
  reflexivity.
Qed.

Lemma count_solve_trace (p : Event -> bool) (imesh : string) :
  p EvUniformRefinement = false ->
  count p (solve_trace imesh) =
  count p
    [EvMeshRead; EvIfstreamClose; EvFiniteElementSpace; EvLinearFormAssemble;
     EvGridFunctionAssign; EvBilinearFormAssemble; EvEliminateEssentialBC;
     EvFinalize; EvGSSmoother;
     EvPCG 1 200 1e-12 1e-28 (fst (solver_result imesh))].
Proof.
  intros H. unfold solve_trace.
  rewrite !count_app, (count_repeat_false _ _ _ H).
  change [EvMeshRead; EvIfstreamClose; EvFiniteElementSpace;
          EvLinearFormAssemble; EvGridFunctionAssign; EvBilinearFormAssemble;
          EvEliminateEssentialBC; EvFinalize; EvGSSmoother;
          EvPCG 1 200 1e-12 1e-28 (fst (solver_result imesh))]
    with ([EvMeshRead; EvIfstreamClose] ++
          [EvFiniteElementSpace; EvLinearFormAssemble; EvGridFunctionAssign;
           EvBilinearFormAssemble; EvEliminateEssentialBC; EvFinalize;
           EvGSSmoother;
           EvPCG 1 200 1e-12 1e-28 (fst (solver_result imesh))]).
  rewrite count_app. lia.
Qed.

End DriverTraces.

(** ** The command line and the exit status *)

Section ExitStatus.
Context {L : Library}.

(** C2. The driver returns 1 when the argument vector holds the program
    name only, 2 when the mesh file named by the first argument cannot be
    opened, and 0 when the file opens and the pipeline has run; in the
    first two cases the trace holds the message (and the failed attempt to
    open the file) and no event of a pipeline stage. *)
Theorem main_exit_status (env : Env) :
  (argc env = 1%Z ->
   run_main env =
   (1%Z, [EvWrite Cout (String.append "Usage: ex1 <mesh_file>" nl)]) /\
   existsb is_stage_event (snd (run_main env)) = false) /\
  (argc env <> 1%Z ->
   file_contents env (nth 1 (argv env) EmptyString) = None ->
   run_main env =
   (2%Z,
    [EvIfstreamOpen (nth 1 (argv env) EmptyString) false;
     EvWrite Cerr
       (String.append "can not open mesh file: "
          (String.append (nth 1 (argv env) EmptyString) nl))]) /\
   existsb is_stage_event (snd (run_main env)) = false) /\
  (argc env <> 1%Z ->
   forall contents,
     file_contents env (nth 1 (argv env) EmptyString) = Some contents ->
     fst (run_main env) = 0%Z /\
     existsb is_stage_event (snd (run_main env)) = true).
Proof.
  split; [|split].
  - intros H. rewrite (run_main_usage env H). split; reflexivity.
  - intros H1 H2. rewrite (run_main_missing env H1 H2). split; reflexivity.
  - intros H1 contents H2. rewrite (run_main_ok env contents H1 H2).
    split; reflexivity.
Qed.

End ExitStatus.

Lemma main_exit_status_witness :
  (fst (run_main (L := sample_library) no_argument_env) = 1%Z /\
   existsb is_stage_event
     (snd (run_main (L := sample_library) no_argument_env)) = false) /\
  (fst (run_main (L := sample_library) missing_file_env) = 2%Z /\
   existsb is_stage_event
     (snd (run_main (L := sample_library) missing_file_env)) = false) /\
  fst (run_main (L := sample_library) sample_env) = 0%Z.
Proof.
  split; [|split].
  - destruct (main_exit_status (L := sample_library) no_argument_env)
      as [H _].
    destruct (H eq_refl) as [E N]. split; [now rewrite E | exact N].
  - destruct (main_exit_status (L := sample_library) missing_file_env)
      as [_ [H _]].
    destruct (H ltac:(discriminate) eq_refl) as [E N].
    split; [now rewrite E | exact N].
  - destruct (main_exit_status (L := sample_library) sample_env)
      as [_ [_ H]].
    exact (proj1 (H ltac:(discriminate) "square"%string eq_refl)).
Defined.

(** ** Order of the pipeline calls *)

Section CallOrder.
Context {L : Library}.

(** C3. No run calls [EliminateEssentialBC] more than once, and a run
    that reads its mesh calls it exactly once, directly after the
    [Assemble] of the bilinear form and directly before its [Finalize]. *)
Theorem eliminate_once_between_assemble_and_finalize (env : Env) :
  (count is_eliminate (snd (run_main env)) <= 1)%nat /\
  (argc env <> 1%Z ->
   forall contents,
     file_contents env (nth 1 (argv env) EmptyString) = Some contents ->
     count is_eliminate (snd (run_main env)) = 1%nat /\
     exists before after,
       snd (run_main env) =
       before ++
       [EvBilinearFormAssemble; EvEliminateEssentialBC; EvFinalize] ++ after
       /\
       count is_eliminate before = O /\
       count is_eliminate after = O).
Proof.
  assert (Hrun : argc env <> 1%Z ->
    forall contents,
      file_contents env (nth 1 (argv env) EmptyString) = Some contents ->
      count is_eliminate (snd (run_main env)) = 1%nat).
  { intros Hargc contents Hfile.
    rewrite (run_main_ok env contents Hargc Hfile). cbn [snd].
    rewrite !count_app, count_solve_trace by reflexivity. reflexivity. }
  split.
  - destruct (Z.eq_dec (argc env) 1) as [Hargc|Hargc].
    + rewrite (run_main_usage env Hargc). cbn. lia.
    + destruct (file_contents env (nth 1 (argv env) EmptyString))
        as [contents|] eqn:Hfile.
      * rewrite (Hrun Hargc contents eq_refl). lia.
      * rewrite (run_main_missing env Hargc Hfile). cbn. lia.
  - intros Hargc contents Hfile. split; [exact (Hrun Hargc contents Hfile)|].
    rewrite (run_main_ok env contents Hargc Hfile). cbn [snd].
    exists ([EvIfstreamOpen (nth 1 (argv env) EmptyString) true] ++
            [EvMeshRead; EvIfstreamClose] ++
            repeat EvUniformRefinement
              (Z.to_nat (ref_levels (Mesh_read contents))) ++
            [EvFiniteElementSpace; EvLinearFormAssemble;
             EvGridFunctionAssign]).
    exists ([EvGSSmoother;
             EvPCG 1 200 1e-12 1e-28 (fst (solver_result contents))] ++
            file_trace env (solved_objects contents) ++
            socket_trace env (solved_objects contents) ++ free_trace).
    split; [|split].
    + unfold solve_trace. rewrite <- !app_assoc. reflexivity.
    + rewrite !count_app, count_repeat_false by reflexivity. reflexivity.
    + rewrite !count_app. reflexivity.
Qed.

(** C8. On a run that reads its mesh, the stream sent to the GLVis socket
    is the tag line, then the printed mesh, then the saved grid function;
    its first line is the tag, which is [fem2d_gf_data] for a mesh of
    dimension 2 and [fem3d_gf_data] for every other dimension. *)
Theorem socket_stream_tag (env : Env) (contents : string) :
  argc env <> 1%Z ->
  file_contents env (nth 1 (argv env) EmptyString) = Some contents ->
  let o := solved_objects contents in
  let stream := written (OSock "localhost" 19916) (snd (run_main env)) in
  stream =
  String.append (String.append (socket_tag (mesh o)) nl)
    (String.append (Mesh_Print (mesh o)) (GridFunction_Save (x o))) /\
  first_line stream = socket_tag (mesh o) /\
  (Dimension (mesh o) = 2%Z -> first_line stream = "fem2d_gf_data"%string) /\
  (Dimension (mesh o) <> 2%Z -> first_line stream = "fem3d_gf_data"%string).
Proof.
  intros Hargc Hfile o stream.
  assert (Hstream :
    stream =
    String.append (String.append (socket_tag (mesh o)) nl)
      (String.append (Mesh_Print (mesh o)) (GridFunction_Save (x o)))).
  { unfold stream. rewrite (run_main_ok env contents Hargc Hfile).
    cbn [snd]. rewrite !written_app, written_solve_trace.
    fold o. unfold file_trace, socket_trace, free_trace.
    cbn [written String.eqb Ascii.eqb Bool.eqb andb Z.eqb Pos.eqb
         String.append].
    rewrite !append_empty_r. reflexivity. }
  assert (Hfirst : first_line stream = socket_tag (mesh o)).
  { rewrite Hstream. apply first_line_tag. }
  split; [exact Hstream|]. split; [exact Hfirst|]. split.
  - intros Hd. rewrite Hfirst. unfold socket_tag. now rewrite Hd.
  - intros Hd. rewrite Hfirst. unfold socket_tag.
    destruct (Z.eqb_spec (Dimension (mesh o)) 2); [contradiction|reflexivity].
Qed.

End CallOrder.

(** ** The output stages *)

Section Output.
Context {L : Library}.

Lemma written_file_main_body (env : Env) (contents : string) :
  written (OFile "sol.gf")
    (solve_trace contents ++ file_trace env (solved_objects contents) ++
     socket_trace env (solved_objects contents) ++ free_trace) =
  GridFunction_Save (x (solved_objects contents)).
Proof.
  rewrite !written_app, written_solve_trace.
  unfold file_trace, socket_trace, free_trace.
  cbn [written String.eqb Ascii.eqb Bool.eqb andb String.append].
  now rewrite !append_empty_r.
Qed.

Lemma created_main_body (env : Env) (contents : string) :
  existsb
    (fun e =>
       match e with
       | EvOfstreamOpen p true => String.eqb p "sol.gf"
       | _ => false
       end)
    (solve_trace contents ++ file_trace env (solved_objects contents) ++
     socket_trace env (solved_objects contents) ++ free_trace) =
  can_create env "sol.gf".
Proof.
  unfold solve_trace.
  rewrite !existsb_app, existsb_repeat_false by reflexivity.
  unfold file_trace, socket_trace, free_trace. cbn [existsb orb].
  destruct (can_create env "sol.gf"); reflexivity.
Qed.


(** The frame property rests on the code of the output stages and on the
    two methods: with a [Save] that clears its object, the same stage ends
    with another solution than the one it started with. *)
Lemma output_stages_frame_needs_reading_save :
  let o' :=
    fst (runState
           (output_stages_with Save_and_clear
              (Mesh_Print_call (L := sample_library)) sample_env
              sample_objects) []) in
  gf_data (x sample_objects) O = 1%R /\ gf_data (x o') O = 0%R /\
  o' <> sample_objects.
Proof.
  cbv zeta. split; [reflexivity|]. split; [reflexivity|].
  intros H. apply (f_equal (fun o => gf_data (x o) O)) in H.
  cbn in H. lra.
Qed.

(** C10. On a run that reads its mesh, [sol.gf] is opened and written
    before anything happens on the socket; the connection to
    [localhost:19916] and the send are attempted on every such run; and
    the file left on disk is the saved grid function whenever the file
    could be created, whether or not the connection is accepted. *)
Theorem solution_file_before_socket (env : Env) (contents : string) :
  argc env <> 1%Z ->
  file_contents env (nth 1 (argv env) EmptyString) = Some contents ->
  let o := solved_objects contents in
  let t := snd (run_main env) in
  (exists before after,
     t =
     before ++
     [EvOfstreamOpen "sol.gf" (can_create env "sol.gf");
      EvWrite (OFile "sol.gf") (GridFunction_Save (x o));
      EvSockConnect "localhost" 19916 (can_connect env "localhost" 19916%Z)]
     ++ after ++ [EvSockSend] ++ free_trace /\
     count is_output_event before = O /\
     count is_output_event free_trace = O) /\
  In (EvSockConnect "localhost" 19916 (can_connect env "localhost" 19916%Z)) t
  /\
  In EvSockSend t /\
  file_on_disk "sol.gf" t =
  (if can_create env "sol.gf" then Some (GridFunction_Save (x o)) else None).
Proof.
  intros Hargc Hfile o t. unfold t.
  rewrite (run_main_ok env contents Hargc Hfile). cbn [snd]. fold o.
  split; [|split; [|split]].
  - exists ([EvIfstreamOpen (nth 1 (argv env) EmptyString) true] ++
            solve_trace contents).
    exists [EvWrite (OSock "localhost" 19916)
              (String.append (socket_tag (mesh o)) nl);
            EvWrite (OSock "localhost" 19916) (Mesh_Print (mesh o));
            EvWrite (OSock "localhost" 19916) (GridFunction_Save (x o))].
    split; [|split].
    + unfold file_trace, socket_trace. rewrite <- !app_assoc. reflexivity.
    + rewrite count_app, count_solve_trace by reflexivity. reflexivity.
    + reflexivity.
  - rewrite !in_app_iff. right. right. right. left. left. reflexivity.
  - rewrite !in_app_iff. right. right. right. left.
    unfold socket_trace. cbn [In]. tauto.
  - unfold file_on_disk. cbn [existsb app orb].
    rewrite created_main_body.
    destruct (can_create env "sol.gf"); [|reflexivity].
    cbn [written app]. unfold o. now rewrite written_file_main_body.
Qed.

End Output.

(** ** The number of refinement levels *)

Lemma Int_part_ge (k : Z) (r : R) : (k <= Int_part r)%Z <-> (IZR k <= r)%R.
Proof.
  destruct (base_Int_part r) as [Hlo Hhi]. split; intro H.
  - apply Rle_trans with (IZR (Int_part r)); [now apply IZR_le | exact Hlo].
  - assert (Hlt : (IZR k < IZR (Int_part r + 1))%R) by (rewrite plus_IZR; lra).
    apply lt_IZR in Hlt. lia.
Qed.

Lemma ln_2_pos : (0 < ln 2)%R.
Proof. rewrite <- ln_1. apply ln_increasing; lra. Qed.

Lemma ln_le_iff (u v : R) :
  (0 < u)%R -> (0 < v)%R -> (ln u <= ln v)%R <-> (u <= v)%R.
Proof.
  intros Hu Hv. split; intro H.
  - destruct (Rle_or_lt u v) as [|Hlt]; [assumption|].
    apply (ln_increasing _ _ Hv) in Hlt. lra.
  - destruct H as [H|H]; [left; now apply ln_increasing | subst; lra].
Qed.

Lemma quotient_ge (k q u : R) :
  (0 < u)%R -> (k <= q / u)%R <-> (k * u <= q)%R.
Proof.
  intros Hu. split; intro H.
  - apply (Rmult_le_compat_r u) in H; [|lra].
    replace (q / u * u)%R with q in H by (field; lra). exact H.
  - apply (Rmult_le_reg_r u); [exact Hu|].
    replace (q / u * u)%R with q by (field; lra). exact H.
Qed.

(** The floor of the logarithm, read on the integers: [k] is at most the
    computed level exactly when [k] refinements by the factor
    [2 ^ Dimension] stay within 50000 elements. *)
Lemma floor_log_levels (NE Dim k : Z) :
  (0 < NE)%Z -> (0 < Dim)%Z -> (0 <= k)%Z ->
  (k <= Int_part (ln (50000 / IZR NE) / ln 2 / IZR Dim))%Z <->
  (NE * (2 ^ Dim) ^ k <= 50000)%Z.
Proof.
  intros HNE HDim Hk. rewrite Int_part_ge.
  assert (HNEr : (0 < IZR NE)%R) by now apply IZR_lt.
  assert (HDr : (0 < IZR Dim)%R) by now apply IZR_lt.
  pose proof ln_2_pos as Hl2.
  set (m := Z.to_nat (Dim * k)).
  assert (Hpow : ((2 ^ Dim) ^ k = 2 ^ Z.of_nat m)%Z).
  { unfold m. rewrite Z2Nat.id by lia. now rewrite <- Z.pow_mul_r by lia. }
  assert (Hln : (IZR k * IZR Dim * ln 2 = ln (2 ^ m))%R).
  { rewrite ln_pow by lra. unfold m. rewrite INR_IZR_INZ, Z2Nat.id by lia.
    rewrite mult_IZR. ring. }
  assert (Hp : (0 < 2 ^ m)%R) by (apply pow_lt; lra).
  assert (Hq : (0 < 50000 / IZR NE)%R) by (apply Rdiv_lt_0_compat; lra).
  rewrite (quotient_ge _ _ _ HDr), (quotient_ge _ _ _ Hl2), Hln.
  rewrite (ln_le_iff _ _ Hp Hq), (quotient_ge _ _ _ HNEr), Hpow.
  rewrite pow_IZR, <- mult_IZR, (Z.mul_comm NE).
  split; [apply le_IZR | apply IZR_le].
Qed.

(** The same quotient with the subdivision factor under one logarithm. *)
Lemma log_factor (q : R) (Dim : Z) :
  (0 < Dim)%Z ->
  (q / ln 2 / IZR Dim = q / ln (IZR (2 ^ Dim)))%R.
Proof.
  intros HDim. pose proof ln_2_pos as Hl2.
  assert (HDr : (0 < IZR Dim)%R) by now apply IZR_lt.
  rewrite <- (Z2Nat.id Dim) at 2 by lia.
  rewrite <- pow_IZR, ln_pow by lra.
  rewrite INR_IZR_INZ, Z2Nat.id by lia. field. lra.
Qed.

Lemma length_flat_map_repeat {T : Type} (c : nat) (l : list T) :
  List.length (flat_map (fun e => repeat e c) l) = (List.length l * c)%nat.
Proof.
  induction l as [|e l IHl]; [reflexivity|].
  cbn [flat_map]. rewrite length_app, repeat_length, IHl. cbn [List.length].
  lia.
Qed.

Lemma split_elements_iter (m : Mesh) (k : nat) :
  Dimension (Nat.iter k split_elements m) = Dimension m /\
  GetNE (Nat.iter k split_elements m) =
  (GetNE m * (2 ^ Dimension m) ^ Z.of_nat k)%Z.
Proof.
  induction k as [|k [IHd IHn]].
  - cbn [Nat.iter nat_rect Z.of_nat]. split; [reflexivity|].
    rewrite Z.pow_0_r. lia.
  - rewrite Nat.iter_succ. split; [exact IHd|].
    unfold GetNE in *. cbn [split_elements elements Dimension].
    rewrite IHd, length_flat_map_repeat, Nat2Z.inj_mul, IHn.
    rewrite Z2Nat.id by (apply Z.pow_nonneg; lia).
    rewrite Nat2Z.inj_succ, Z.pow_succ_r by lia. ring.
Qed.

Section Refinement.
Context {L : Library}.

Lemma ref_levels_spec (m : Mesh) (k : Z) :
  (0 < GetNE m)%Z -> (0 < Dimension m)%Z -> (0 <= k)%Z ->
  (k <= ref_levels m)%Z <-> (GetNE m * (2 ^ Dimension m) ^ k <= 50000)%Z.
Proof. intros. unfold ref_levels. now apply floor_log_levels. Qed.

(** The level computed with logarithms and the count computed on the
    integers agree. *)
Lemma ref_levels_count (m : Mesh) :
  (0 < GetNE m)%Z -> (0 < Dimension m)%Z ->
  Z.to_nat (ref_levels m) = refinement_count m.
Proof.
  intros HNE HDim. unfold refinement_count.
  pose proof (ref_levels_spec m 0 HNE HDim (Z.le_refl 0)) as H0.
  rewrite Z.pow_0_r, Z.mul_1_r in H0.
  destruct (Z.leb_spec (GetNE m) 50000) as [Hle|Hgt].
  - apply H0 in Hle. f_equal.
    set (q := (50000 / GetNE m)%Z).
    assert (Hq : (0 < q)%Z).
    { apply Z.div_str_pos. apply H0 in Hle. lia. }
    assert (Hlog : (0 <= Z.log2 q)%Z) by apply Z.log2_nonneg.
    apply Z.le_antisymm.
    + pose proof (ref_levels_spec m (ref_levels m) HNE HDim Hle) as Hspec.
      apply Z.div_le_lower_bound; [exact HDim|].
      apply Z.log2_le_pow2; [exact Hq|].
      rewrite Z.pow_mul_r by lia.
      apply Z.div_le_lower_bound; [exact HNE|].
      apply Hspec. lia.
    + apply ref_levels_spec; [exact HNE | exact HDim | |].
      * apply Z.div_pos; lia.
      * rewrite <- Z.pow_mul_r by (try apply Z.div_pos; lia).
        apply Z.le_trans with (GetNE m * q)%Z;
          [|apply Z.mul_div_le; exact HNE].
        apply Z.mul_le_mono_nonneg_l; [lia|].
        apply Z.log2_le_pow2; [exact Hq|].
        apply Z.mul_div_le. exact HDim.
  - assert (Hneg : ~ (0 <= ref_levels m)%Z) by (intros H; apply H0 in H; lia).
    lia.
Qed.

Lemma count_refinement_solve_trace (imesh : string) :
  count is_refinement (solve_trace imesh) =
  Z.to_nat (ref_levels (Mesh_read imesh)).
Proof.
  unfold solve_trace. rewrite !count_app, count_repeat_true by reflexivity.
  cbn. lia.
Qed.

(** C1. With [m0] the mesh as read, of positive element count and
    dimension, and a refinement that multiplies the element count by
    [2 ^ Dimension]: the computed level is the floor of
    [log (50000 / NE) / log (2 ^ Dimension)]; the loop refines
    [max 0 level] times; [k] refinements keep the element count within
    50000 exactly when [k <= level], so no larger number of refinements
    does, and the refined mesh itself stays within 50000 elements when the
    mesh as read does.  The level is not clamped where it is computed: on
    a mesh of more than 50000 elements it is negative, and it is the guard
    of the loop that then runs no refinement. *)
Theorem refinement_level_count (imesh : string) :
  let m0 := Mesh_read imesh in
  let factor := (2 ^ Dimension m0)%Z in
  let levels := ref_levels m0 in
  let run := runState (solve_stages imesh) [] in
  (0 < GetNE m0)%Z ->
  (0 < Dimension m0)%Z ->
  (forall k : nat,
     GetNE (Nat.iter k UniformRefinement m0) =
     (GetNE m0 * factor ^ Z.of_nat k)%Z) ->
  levels = Int_part (ln (50000 / IZR (GetNE m0)) / ln (IZR factor)) /\
  Z.of_nat (count is_refinement (snd run)) = Z.max 0 levels /\
  mesh (fst run) =
  Nat.iter (count is_refinement (snd run)) UniformRefinement m0 /\
  (forall k : nat,
     (GetNE (Nat.iter k UniformRefinement m0) <= 50000)%Z <->
     (Z.of_nat k <= levels)%Z) /\
  (forall k : nat,
     (GetNE (Nat.iter k UniformRefinement m0) <= 50000)%Z ->
     (k <= count is_refinement (snd run))%nat) /\
  ((GetNE m0 <= 50000)%Z -> (GetNE (mesh (fst run)) <= 50000)%Z) /\
  ((50000 < GetNE m0)%Z ->
   (levels < 0)%Z /\ count is_refinement (snd run) = O /\
   mesh (fst run) = m0).
Proof.
  intros m0 factor levels run HNE HDim Hgrow.
  assert (Hiff : forall k : nat,
    (GetNE (Nat.iter k UniformRefinement m0) <= 50000)%Z <->
    (Z.of_nat k <= levels)%Z).
  { intros k. rewrite Hgrow. symmetry.
    apply ref_levels_spec; [assumption|assumption|lia]. }
  assert (Hcount : count is_refinement (snd run) = Z.to_nat levels).
  { unfold run. rewrite run_solve_stages. cbn [snd app].
    apply count_refinement_solve_trace. }
  assert (Hmesh : mesh (fst run) =
                  Nat.iter (Z.to_nat levels) UniformRefinement m0).
  { unfold run. rewrite run_solve_stages. reflexivity. }
  assert (H0 : (GetNE m0 <= 50000)%Z <-> (0 <= levels)%Z).
  { apply (Hiff O). }
  split; [|split; [|split; [|split; [|split; [|split]]]]].
  - unfold levels, ref_levels, factor. f_equal. now apply log_factor.
  - rewrite Hcount. lia.
  - now rewrite Hcount.
  - exact Hiff.
  - intros k Hk. apply Hiff in Hk. rewrite Hcount. lia.
  - intros Hle. rewrite Hmesh. apply Hiff. apply H0 in Hle.
    rewrite Z2Nat.id; lia.
  - intros Hgt.
    assert (Hneg : (levels < 0)%Z).
    { destruct (Z.lt_ge_cases levels 0) as [|Hge]; [assumption|].
      apply H0 in Hge. lia. }
    split; [exact Hneg|].
    assert (Hz : Z.to_nat levels = O) by lia.
    split; [now rewrite Hcount|]. now rewrite Hmesh, Hz.
Qed.

End Refinement.

(** On the sample mesh of four triangles six levels are computed:
    [4 * 4 ^ 6 = 16384 <= 50000 < 65536 = 4 * 4 ^ 7]. *)
Example refinement_count_square : refinement_count square_mesh = 6%nat.
Proof. reflexivity. Qed.

Lemma ref_levels_square : ref_levels square_mesh = 6%Z.
Proof.
  assert (H6 : (6 <= ref_levels square_mesh)%Z).
  { apply ref_levels_spec; [reflexivity|reflexivity|lia|]. vm_compute.
    discriminate. }
  assert (H7 : ~ (7 <= ref_levels square_mesh)%Z).
  { intros H. apply ref_levels_spec in H; [|reflexivity|reflexivity|lia].
    vm_compute in H. now apply H. }
  lia.
Qed.

(** On a mesh of 50001 elements the computed level is negative and the
    integer count is zero. *)
Lemma ref_levels_crowded :
  (ref_levels crowded_mesh < 0)%Z /\ refinement_count crowded_mesh = O.
Proof.
  assert (HNE : GetNE crowded_mesh = 50001%Z).
  { unfold GetNE. cbn [crowded_mesh elements].
    rewrite repeat_length, Z2Nat.id; lia. }
  split.
  - destruct (Z.lt_ge_cases (ref_levels crowded_mesh) 0) as [|Hge];
      [assumption|].
    apply ref_levels_spec in Hge; [|rewrite HNE; lia|reflexivity|lia].
    rewrite HNE in Hge. vm_compute in Hge. now elim Hge.
  - unfold refinement_count. now rewrite HNE.
Qed.

Lemma refinement_level_count_witness :
  (GetNE (mesh (fst (runState (solve_stages (L := sample_library) "square")
                       []))) <= 50000)%Z.
Proof.
  refine (proj1 (proj2 (proj2 (proj2 (proj2 (proj2
    (refinement_level_count (L := sample_library) "square"
       _ _ _)))))) _).
  - reflexivity.
  - reflexivity.
  - intros k. exact (proj2 (split_elements_iter square_mesh k)).
  - vm_compute. discriminate.
Defined.

(** ** Finite sums *)

Lemma sum_n_ext (n : nat) (f g : nat -> R) :
  (forall i, (i < n)%nat -> f i = g i) -> sum_n n f = sum_n n g.
Proof.
  induction n as [|n IH]; intros H; [reflexivity|].
  cbn [sum_n]. rewrite IH, H by auto with arith. reflexivity.
Qed.

Lemma sum_n_zero (n : nat) (f : nat -> R) :
  (forall i, (i < n)%nat -> f i = 0%R) -> sum_n n f = 0%R.
Proof.
  induction n as [|n IH]; intros H; [reflexivity|].
  cbn [sum_n]. rewrite IH, H by auto with arith. ring.
Qed.

Lemma sum_n_plus (n : nat) (f g : nat -> R) :
  sum_n n (fun i => (f i + g i)%R) = (sum_n n f + sum_n n g)%R.
Proof.
  induction n as [|n IH]; cbn [sum_n]; [ring | rewrite IH; ring].
Qed.

Lemma sum_n_swap (n m : nat) (f : nat -> nat -> R) :
  sum_n n (fun i => sum_n m (fun j => f i j)) =
  sum_n m (fun j => sum_n n (fun i => f i j)).
Proof.
  induction n as [|n IH].
  - cbn [sum_n]. symmetry. now apply sum_n_zero.
  - cbn [sum_n]. rewrite IH, <- sum_n_plus. reflexivity.
Qed.

(** ** Symmetry of the stiffness matrix *)

Section Symmetry.
Context {L : Library}.

Lemma DiffusionIntegrator_sym (m : Mesh) (kappa : R) (e i j : nat) :
  DiffusionIntegrator m kappa e i j = DiffusionIntegrator m kappa e j i.
Proof.
  unfold DiffusionIntegrator. apply sum_n_ext. intros q _.
  do 2 f_equal. apply sum_n_ext. intros k _. apply Rmult_comm.
Qed.

Lemma scatter_mat_sym (dofs : list nat) (elmat : Matrix) (i j : nat) :
  (forall u v, elmat u v = elmat v u) ->
  scatter_mat dofs elmat i j = scatter_mat dofs elmat j i.
Proof.
  intros Hsym. unfold scatter_mat.
  rewrite (sum_n_swap _ _
    (fun u v =>
       if Nat.eqb (nth u dofs O) j && Nat.eqb (nth v dofs O) i
       then elmat u v else 0%R)).
  apply sum_n_ext. intros u _. apply sum_n_ext. intros v _.
  rewrite andb_comm, (Hsym u v). reflexivity.
Qed.

Lemma BilinearForm_Assemble_sym (fes : FiniteElementSpace) (kappa : R)
  (i j : nat) :
  BilinearForm_Assemble fes kappa i j = BilinearForm_Assemble fes kappa j i.
Proof.
  unfold BilinearForm_Assemble. apply sum_n_ext. intros e _.
  apply scatter_mat_sym. intros u v. apply DiffusionIntegrator_sym.
Qed.

End Symmetry.

(** ** Elimination of the essential degrees of freedom *)

(** The matrix after the elimination of the degrees of freedom [ds]: rows
    and columns of [ds] are those of the identity, the other entries are
    kept. *)
Lemma eliminate_fold_matrix (sol : Vec) (ds : list nat) :
  forall (A : Matrix) (rhs : Vec) (i j : nat),
    fst (fold_left (fun Ab d => EliminateRowCol d (sol d) Ab) ds (A, rhs)) i j
    = if existsb (Nat.eqb i) ds || existsb (Nat.eqb j) ds
      then (if Nat.eqb i j then 1%R else 0%R)
      else A i j.
Proof.
  induction ds as [|d ds IH]; intros A rhs i j; [reflexivity|].
  cbn [fold_left existsb]. unfold EliminateRowCol at 2. cbn [fst snd].
  rewrite IH.
  destruct (existsb (Nat.eqb i) ds), (existsb (Nat.eqb j) ds);
    rewrite ?orb_true_r; cbn [orb]; try reflexivity.
  destruct (Nat.eqb_spec i d), (Nat.eqb_spec j d), (Nat.eqb_spec i j);
    subst; cbn [orb andb]; try reflexivity; congruence.
Qed.

(** The right-hand side after the elimination, for a zero guess: zero on
    [ds], kept elsewhere. *)
Lemma eliminate_fold_rhs (sol : Vec) (ds : list nat) :
  (forall d, sol d = 0%R) ->
  forall (A : Matrix) (rhs : Vec) (j : nat),
    snd (fold_left (fun Ab d => EliminateRowCol d (sol d) Ab) ds (A, rhs)) j
    = if existsb (Nat.eqb j) ds then 0%R else rhs j.
Proof.
  intros Hzero. induction ds as [|d ds IH]; intros A rhs j; [reflexivity|].
  cbn [fold_left existsb]. unfold EliminateRowCol at 2. cbn [fst snd].
  rewrite IH, Hzero.
  destruct (existsb (Nat.eqb j) ds); [now rewrite orb_true_r|].
  rewrite orb_false_r. destruct (Nat.eqb j d); [reflexivity | ring].
Qed.

Lemma existsb_eqb_In (d : nat) (ds : list nat) :
  existsb (Nat.eqb d) ds = true <-> In d ds.
Proof.
  rewrite existsb_exists. split.
  - intros [y [Hin Heq]]. apply Nat.eqb_eq in Heq. now subst.
  - intros Hin. exists d. split; [assumption | apply Nat.eqb_refl].
Qed.

Lemma existsb_eqb_not_In (d : nat) (ds : list nat) :
  ~ In d ds -> existsb (Nat.eqb d) ds = false.
Proof.
  intros H. destruct (existsb (Nat.eqb d) ds) eqn:E; [|reflexivity].
  apply existsb_eqb_In in E. contradiction.
Qed.

Section Elimination.
Context {L : Library}.

(** C4. [EliminateEssentialBC] with the all-zero guess (the guess of
    [main]): every essential degree of freedom [d] ends with the row and
    the column of the identity (diagonal 1, zero elsewhere) and with
    [rhs[d] = 0]; the update [rhs[j] -= A[j][d] * 0] of one elimination
    leaves every other entry of the right-hand side as it was, and the
    right-hand side of the degrees of freedom that are not essential is
    the assembled one. *)
Theorem eliminate_zero_guess (fes : FiniteElementSpace) (ess_bdr : list Z)
  (rhs : Vec) (A : Matrix) :
  let Ab := EliminateEssentialBC fes ess_bdr (fun _ => 0%R) rhs A in
  (forall d, In d (GetEssentialDofs fes ess_bdr) ->
     fst Ab d d = 1%R /\
     (forall j, j <> d -> fst Ab d j = 0%R /\ fst Ab j d = 0%R) /\
     snd Ab d = 0%R) /\
  (forall d j, j <> d ->
     snd (EliminateRowCol d 0 (A, rhs)) j = (rhs j - A j d * 0)%R /\
     snd (EliminateRowCol d 0 (A, rhs)) j = rhs j) /\
  (forall j, ~ In j (GetEssentialDofs fes ess_bdr) -> snd Ab j = rhs j) /\
  (forall imesh t,
     b (fst (runState (solve_stages imesh) t)) =
     snd (EliminateEssentialBC (the_fespace imesh) (the_ess_bdr imesh)
            (fun _ => 0%R) (LinearForm_Assemble (the_fespace imesh) 1)
            (BilinearForm_Assemble (the_fespace imesh) 1)) /\
     a (fst (runState (solve_stages imesh) t)) =
     fst (EliminateEssentialBC (the_fespace imesh) (the_ess_bdr imesh)
            (fun _ => 0%R) (LinearForm_Assemble (the_fespace imesh) 1)
            (BilinearForm_Assemble (the_fespace imesh) 1))).
Proof.
  intros Ab. unfold Ab, EliminateEssentialBC.
  split; [|split; [|split]].
  - intros d Hd. apply existsb_eqb_In in Hd.
    split; [|split].
    + rewrite eliminate_fold_matrix, Hd, Nat.eqb_refl. reflexivity.
    + intros j Hj. rewrite !eliminate_fold_matrix, Hd, orb_true_r.
      cbn [orb]. destruct (Nat.eqb_spec d j), (Nat.eqb_spec j d);
        subst; try contradiction; split; reflexivity.
    + rewrite eliminate_fold_rhs by reflexivity. now rewrite Hd.
  - intros d j Hj. unfold EliminateRowCol. cbn [fst snd].
    destruct (Nat.eqb_spec j d); [contradiction|]. split; [reflexivity|ring].
  - intros j Hj. rewrite eliminate_fold_rhs by reflexivity.
    now rewrite (existsb_eqb_not_In _ _ Hj).
  - intros imesh t. rewrite run_solve_stages. split; reflexivity.
Qed.

(** C7. The assembled stiffness matrix is symmetric, it is still symmetric
    after [EliminateEssentialBC], and the elimination keeps any symmetric
    matrix symmetric; so the matrices that [main] holds after [Assemble]
    and after the elimination are symmetric. *)
Theorem stiffness_matrix_symmetric (fes : FiniteElementSpace) (kappa : R)
  (ess_bdr : list Z) (sol rhs : Vec) :
  symmetric (NDofs fes) (BilinearForm_Assemble fes kappa) /\
  symmetric (NDofs fes)
    (fst (EliminateEssentialBC fes ess_bdr sol rhs
            (BilinearForm_Assemble fes kappa))) /\
  (forall A : Matrix,
     symmetric (NDofs fes) A ->
     symmetric (NDofs fes) (fst (EliminateEssentialBC fes ess_bdr sol rhs A)))
  /\
  (forall imesh t,
     symmetric (NDofs (the_fespace imesh)) (fst (assembled imesh)) /\
     symmetric (NDofs (the_fespace imesh))
       (a (fst (runState (solve_stages imesh) t)))).
Proof.
  assert (Hkeep : forall (f : FiniteElementSpace) (e : list Z) (s r : Vec)
                         (A : Matrix),
    symmetric (NDofs f) A ->
    symmetric (NDofs f) (fst (EliminateEssentialBC f e s r A))).
  { intros f e s r A HA i j Hi Hj. unfold EliminateEssentialBC.
    rewrite !eliminate_fold_matrix, (orb_comm (existsb (Nat.eqb j) _)),
      (Nat.eqb_sym j i), (HA i j Hi Hj). reflexivity. }
  assert (Hasm : forall f k, symmetric (NDofs f) (BilinearForm_Assemble f k)).
  { intros f k i j _ _. apply BilinearForm_Assemble_sym. }
  split; [apply Hasm|]. split; [apply Hkeep, Hasm|].
  split; [intros A; apply Hkeep|].
  intros imesh t. split; [apply Hasm|].
  rewrite run_solve_stages. cbn [fst a solved_objects].
  apply Hkeep, Hasm.
Qed.

End Elimination.

Lemma eliminate_zero_guess_witness :
  let fes := {| fes_mesh := square_mesh |} in
  let Ab :=
    EliminateEssentialBC fes [1; 1; 1; 1]%Z (fun _ => 0%R)
      (fun _ => 1%R) (fun _ _ => 2%R) in
  In 0%nat (GetEssentialDofs fes [1; 1; 1; 1]%Z) /\
  fst Ab 0%nat 0%nat = 1%R /\ snd Ab 0%nat = 0%R /\ snd Ab 4%nat = 1%R.
Proof.
  intros fes Ab.
  assert (Hin : In 0%nat (GetEssentialDofs fes [1; 1; 1; 1]%Z)).
  { left. reflexivity. }
  assert (Hout : ~ In 4%nat (GetEssentialDofs fes [1; 1; 1; 1]%Z)).
  { intros [H|[H|[H|[H|[]]]]]; discriminate H. }
  pose proof (eliminate_zero_guess (L := sample_library) fes [1; 1; 1; 1]%Z
                (fun _ => 1%R) (fun _ _ => 2%R)) as [Hess [_ [Hfree _]]].
  split; [exact Hin|].
  split; [exact (proj1 (Hess 0%nat Hin))|].
  split; [exact (proj2 (proj2 (Hess 0%nat Hin)))|].
  exact (Hfree 4%nat Hout).
Defined.

Lemma stiffness_matrix_symmetric_witness :
  symmetric 5
    (fst (EliminateEssentialBC {| fes_mesh := square_mesh |} [1; 1; 1; 1]%Z
            (fun _ => 0%R) (fun _ => 1%R)
            (fun i j => INR (i + j)))).
Proof.
  apply (proj1 (proj2 (proj2
    (stiffness_matrix_symmetric (L := sample_library)
       {| fes_mesh := square_mesh |} 1%R [1; 1; 1; 1]%Z
       (fun _ => 0%R) (fun _ => 1%R))))).
  intros i j _ _. now rewrite Nat.add_comm.
Defined.

(** ** The conjugate gradient solver as a state machine *)

Section SolverProofs.
Variable n : nat.
Variable A : Matrix.
Variable B : Vec -> Vec.

Lemma pcg_iter_steps (k : nat) (st : PCGState) :
  pcg_iter (Nat.iter k (pcg_step n A B) st) = (pcg_iter st + k)%nat.
Proof.
  induction k as [|k IH]; [cbn [Nat.iter nat_rect]; lia|].
  rewrite Nat.iter_succ. cbn [pcg_step pcg_iter]. rewrite IH. lia.
Qed.

(** The loop stops at the first state, among the first [budget] ones,
    whose residual norm is within the tolerance, and reports success; it
    reports failure when there is none, after [budget] iterations. *)
Lemma pcg_loop_spec (tol : R) (budget : nat) :
  forall st : PCGState,
  exists k : nat,
    (k <= budget)%nat /\
    snd (pcg_loop n A B tol budget st) = Nat.iter k (pcg_step n A B) st /\
    (forall k', (k' < k)%nat ->
       ~ (norm n (pcg_r (Nat.iter k' (pcg_step n A B) st)) <= tol)%R) /\
    ((fst (pcg_loop n A B tol budget st) = Converged /\
      (norm n (pcg_r (Nat.iter k (pcg_step n A B) st)) <= tol)%R) \/
     (fst (pcg_loop n A B tol budget st) = NotConverged /\
      k = budget /\
      ~ (norm n (pcg_r (Nat.iter k (pcg_step n A B) st)) <= tol)%R)).
Proof.
  induction budget as [|budget IH]; intros st.
  - exists O. cbn [pcg_loop]. destruct (Rle_dec (norm n (pcg_r st)) tol).
    + repeat split; try lia; try (intros; lia). left. now split.
    + repeat split; try lia; try (intros; lia). right. now repeat split.
  - cbn [pcg_loop]. destruct (Rle_dec (norm n (pcg_r st)) tol) as [Hle|Hgt].
    + exists O. repeat split; try lia; try (intros; lia). left. now split.
    + destruct (IH (pcg_step n A B st)) as [k [Hk [Hst [Hbefore Hend]]]].
      exists (S k). rewrite Nat.iter_succ_r.
      split; [lia|]. split; [exact Hst|]. split; [|].
      * intros [|k'] Hlt; [exact Hgt|].
        rewrite Nat.iter_succ_r. apply Hbefore. lia.
      * destruct Hend as [[Hc Hn]|[Hc [Hkb Hn]]].
        -- left. now split.
        -- right. repeat split; [exact Hc | lia | exact Hn].
Qed.

(** ** Entries that stay zero through the solve *)

Variable d : nat.
Hypothesis A_row : forall j, A d j = if Nat.eqb d j then 1%R else 0%R.
Hypothesis B_zero : forall r : Vec, r d = 0%R -> B r d = 0%R.






End SolverProofs.

(** Both terminal states occur.  On the system [1 * x = 1] with the
    identity as preconditioner, tolerance [1 / 2] and guess 0, the first
    iteration reaches the solution [x = 1]: with a budget of five
    iterations the solver reports success after one, with no budget it
    reports failure on the guess. *)
Lemma norm_1 (v : Vec) (c : R) : (0 <= c)%R -> v O = c -> norm 1 v = c.
Proof.
  intros Hc Hv. unfold norm, dot. cbn [sum_n]. rewrite Hv.
  replace (0 + c * c)%R with (Rsqr c) by (unfold Rsqr; ring).
  now apply sqrt_Rsqr.
Qed.

Example pcg_converges :
  let res :=
    PCG 1 (fun _ _ => 1%R) (fun r => r) (fun _ => 1%R) (fun _ => 0%R)
      1 5 (1 / 2) 0 in
  fst res = Converged /\ pcg_iter (snd res) = 1%nat /\
  pcg_x (snd res) O = 1%R.
Proof.
  cbv zeta. unfold PCG, pcg_tol.
  set (st0 := pcg_init 1 (fun _ _ => 1%R) (fun r => r) (fun _ => 1%R)
                (fun _ => 0%R)).
  assert (H0 : norm 1 (pcg_r st0) = 1%R).
  { apply norm_1; [lra|]. unfold st0, pcg_init, vsub, Mult.
    cbn [pcg_r sum_n]. ring. }
  assert (H1 : norm 1 (pcg_r (pcg_step 1 (fun _ _ => 1%R) (fun r => r) st0))
               = 0%R).
  { apply norm_1; [lra|]. unfold st0, pcg_step, pcg_init, axpy, vsub, Mult, dot.
    cbn [pcg_r pcg_p pcg_z sum_n]. field. }
  rewrite H0.
  replace (Rmax (1 / 2 * 1) 0) with (1 / 2)%R
    by (rewrite Rmax_left; lra).
  change (Z.to_nat 5) with 5%nat. cbn [pcg_loop]. rewrite H0.
  destruct (Rle_dec 1 (1 / 2)) as [Habs|_]; [lra|].
  rewrite H1. destruct (Rle_dec 0 (1 / 2)) as [_|Habs]; [|lra].
  cbn [fst snd pcg_step pcg_iter pcg_x].
  split; [reflexivity|]. split; [reflexivity|].
  unfold st0, pcg_init, axpy, vsub, Mult, dot.
  cbn [pcg_r pcg_p pcg_z pcg_x sum_n]. field.
Qed.

Example pcg_budget_exhausted :
  let res :=
    PCG 1 (fun _ _ => 1%R) (fun r => r) (fun _ => 1%R) (fun _ => 0%R)
      1 0 (1 / 2) 0 in
  fst res = NotConverged /\ pcg_iter (snd res) = O /\
  pcg_x (snd res) O = 0%R.
Proof.
  cbv zeta. unfold PCG, pcg_tol.
  set (st0 := pcg_init 1 (fun _ _ => 1%R) (fun r => r) (fun _ => 1%R)
                (fun _ => 0%R)).
  assert (H0 : norm 1 (pcg_r st0) = 1%R).
  { apply norm_1; [lra|]. unfold st0, pcg_init, vsub, Mult.
    cbn [pcg_r sum_n]. ring. }
  rewrite H0.
  replace (Rmax (1 / 2 * 1) 0) with (1 / 2)%R
    by (rewrite Rmax_left; lra).
  change (Z.to_nat 0) with O. cbn [pcg_loop]. rewrite H0.
  destruct (Rle_dec 1 (1 / 2)) as [Habs|_]; [lra|].
  repeat split.
Qed.




(** ** Marking of the boundary *)





Section Solve.
Context {L : Library}.

(** C5. [main] calls the solver once, with print level 1, at most 200
    iterations, relative tolerance 1e-12 and absolute tolerance 1e-28, and
    keeps its last iterate in [x].  The solver stops after [k <= 200]
    iterations: at the first state whose residual norm is at most
    [max (1e-12 * |initial residual|, 1e-28)], and then it reports
    [Converged]; or, when no state up to the 200th meets the tolerance,
    after exactly 200 iterations, and then it reports [NotConverged].  The
    reported state is the one recorded in the trace. *)
Theorem pcg_terminal_state (imesh : string) (t : Trace) :
  let n := NDofs (the_fespace imesh) in
  let A := fst (eliminated imesh) in
  let rhs := snd (eliminated imesh) in
  let M := GSSmoother n A in
  let step := pcg_step n A M in
  let st0 := pcg_init n A M rhs (fun _ => 0%R) in
  let tol := Rmax (1e-12 * norm n (vsub rhs (Mult n A (fun _ => 0%R)))) 1e-28 in
  let res := PCG n A M rhs (fun _ => 0%R) 1 200 1e-12 1e-28 in
  let run := runState (solve_stages imesh) t in
  (exists before,
     snd run = t ++ before ++ [EvPCG 1 200 1e-12 1e-28 (fst res)] /\
     count is_solve_event before = O) /\
  gf_data (x (fst run)) = pcg_x (snd res) /\
  exists k : nat,
    (k <= 200)%nat /\
    snd res = Nat.iter k step st0 /\
    pcg_iter (snd res) = k /\
    (forall k', (k' < k)%nat ->
       ~ (norm n (pcg_r (Nat.iter k' step st0)) <= tol)%R) /\
    ((fst res = Converged /\ (norm n (pcg_r (snd res)) <= tol)%R) \/
     (fst res = NotConverged /\ k = 200%nat /\
      ~ (norm n (pcg_r (snd res)) <= tol)%R)).
Proof.
  intros n A rhs M step st0 tol res run.
  split; [|split].
  - unfold run. rewrite run_solve_stages. cbn [snd].
    exists ([EvMeshRead; EvIfstreamClose] ++
            repeat EvUniformRefinement
              (Z.to_nat (ref_levels (Mesh_read imesh))) ++
            [EvFiniteElementSpace; EvLinearFormAssemble;
             EvGridFunctionAssign; EvBilinearFormAssemble;
             EvEliminateEssentialBC; EvFinalize; EvGSSmoother]).
    split.
    + unfold solve_trace. rewrite <- !app_assoc. reflexivity.
    + rewrite !count_app, count_repeat_false by reflexivity. reflexivity.
  - unfold run. rewrite run_solve_stages. reflexivity.
  - destruct (pcg_loop_spec n A M tol 200 st0)
      as [k [Hk [Hst [Hbefore Hend]]]].
    change (pcg_loop n A M tol 200 st0) with res in Hst, Hend.
    exists k. split; [exact Hk|]. split; [exact Hst|]. split.
    + rewrite Hst, pcg_iter_steps. reflexivity.
    + split; [exact Hbefore|]. rewrite Hst. exact Hend.
Qed.


End Solve.


(** ** The sample run *)

Lemma eliminate_once_between_assemble_and_finalize_witness :
  count is_eliminate (snd (run_main (L := sample_library) sample_env)) = 1%nat.
Proof.
  refine (proj1 (proj2 (eliminate_once_between_assemble_and_finalize
                          (L := sample_library) sample_env)
                   _ "square"%string _)).
  - discriminate.
  - reflexivity.
Defined.

Lemma socket_stream_tag_witness :
  first_line
    (written (OSock "localhost" 19916)
       (snd (run_main (L := sample_library) sample_env))) =
  socket_tag (mesh (solved_objects (L := sample_library) "square")).
Proof.
  refine (proj1 (proj2 (socket_stream_tag (L := sample_library)
                          sample_env "square" _ _))).
  - discriminate.
  - reflexivity.
Defined.

Lemma solution_file_before_socket_witness :
  In EvSockSend (snd (run_main (L := sample_library) sample_env)) /\
  file_on_disk "sol.gf" (snd (run_main (L := sample_library) sample_env)) =
  Some "solution"%string.
Proof.
  refine ((fun H => conj (proj1 (proj2 (proj2 H))) (proj2 (proj2 (proj2 H))))
            (solution_file_before_socket (L := sample_library)
               sample_env "square" _ _)).
  - discriminate.
  - reflexivity.
Defined.

(** The whole trace of the sample run: the mesh of four triangles is
    refined six times, the tag is the two-dimensional one, and the refused
    connection leaves the file as written. *)
Example sample_run :
  run_main (L := sample_library) sample_env =
  (0%Z,
   [EvIfstreamOpen "square.mesh2d" true; EvMeshRead; EvIfstreamClose;
    EvUniformRefinement; EvUniformRefinement; EvUniformRefinement;
    EvUniformRefinement; EvUniformRefinement; EvUniformRefinement;
    EvFiniteElementSpace; EvLinearFormAssemble; EvGridFunctionAssign;
    EvBilinearFormAssemble; EvEliminateEssentialBC; EvFinalize; EvGSSmoother;
    EvPCG 1 200 1e-12 1e-28
      (fst (solver_result (L := sample_library) "square"));
    EvOfstreamOpen "sol.gf" true;
    EvWrite (OFile "sol.gf") "solution";
    EvSockConnect "localhost" 19916 false;
    EvWrite (OSock "localhost" 19916) (String.append "fem2d_gf_data" nl);
    EvWrite (OSock "localhost" 19916) "mesh";
    EvWrite (OSock "localhost" 19916) "solution";
    EvSockSend;
    EvDelete "a"; EvDelete "b"; EvDelete "fespace"; EvDelete "fec";
    EvDelete "mesh"]).
Proof.
  rewrite (run_main_ok sample_env "square") by (discriminate || reflexivity).
  unfold solve_trace, file_trace, socket_trace, free_trace, socket_tag.
  assert (Hdim :
    Dimension (mesh (solved_objects (L := sample_library) "square")) = 2%Z).
  { cbn [mesh solved_objects]. unfold refined_mesh.
    apply (proj1 (split_elements_iter square_mesh _)). }
  rewrite Hdim.
  cbn [Mesh_read sample_library]. rewrite ref_levels_square.
  reflexivity.
Qed.

(** * Further properties of the driver *)

(** ** What a run depends on *)

Section Footprint.
Context {L : Library}.

(** X1. A run depends on its surroundings only through the test
    [argc == 1], the argument [argv[1]] and the contents of the file it
    names: two runs that agree on these exit with the same status and make
    the same calls, up to the recorded outcome of creating [sol.gf] and of
    connecting to [localhost:19916]; when these two outcomes agree as
    well, the runs are equal.  Further arguments, other files and other
    servers are never looked at, and no outcome of an output call changes
    the exit status or the calls that follow. *)
Theorem main_footprint (env env' : Env) :
  Z.eqb (argc env) 1 = Z.eqb (argc env') 1 ->
  nth 1 (argv env) EmptyString = nth 1 (argv env') EmptyString ->
  file_contents env (nth 1 (argv env) EmptyString) =
  file_contents env' (nth 1 (argv env') EmptyString) ->
  fst (run_main env) = fst (run_main env') /\
  map forget_outcome (snd (run_main env)) =
  map forget_outcome (snd (run_main env')) /\
  (can_create env "sol.gf" = can_create env' "sol.gf" ->
   can_connect env "localhost" 19916%Z = can_connect env' "localhost" 19916%Z
   -> run_main env = run_main env').
Proof.
  intros Hargc Hpath Hfile.
  destruct (Z.eqb_spec (argc env) 1) as [H1|H1];
    destruct (Z.eqb_spec (argc env') 1) as [H1'|H1']; try discriminate Hargc.
  - rewrite (run_main_usage env H1), (run_main_usage env' H1').
    repeat split.
  - destruct (file_contents env (nth 1 (argv env) EmptyString))
      as [contents|] eqn:E.
    + rewrite (run_main_ok env contents H1 E).
      rewrite (run_main_ok env' contents H1' (eq_sym Hfile)).
      rewrite <- Hpath. cbn [fst snd]. split; [reflexivity|]. split.
      * rewrite !map_app. unfold file_trace, socket_trace.
        cbn [map forget_outcome]. reflexivity.
      * intros Hc Hs. unfold file_trace, socket_trace.
        now rewrite Hc, Hs.
    + rewrite (run_main_missing env H1 E).
      rewrite (run_main_missing env' H1' (eq_sym Hfile)).
      rewrite <- Hpath. repeat split.
Qed.

(** X2. On a run that reads its mesh the calls are, in order: open, read
    and close the mesh file; the refinements; the finite element space;
    the assembly of the linear form; the zero grid function; the assembly
    of the bilinear form, the elimination and [Finalize]; the smoother and
    the solve; the file [sol.gf] and the save; the connection, the tag,
    the mesh, the solution and the send; and last the five [delete]s of
    [a], [b], [fespace], [fec] and [mesh].  Only the number of
    refinements varies with the mesh. *)
Theorem main_call_sequence (env : Env) (contents : string) :
  argc env <> 1%Z ->
  file_contents env (nth 1 (argv env) EmptyString) = Some contents ->
  let o := solved_objects contents in
  snd (run_main env) =
  [EvIfstreamOpen (nth 1 (argv env) EmptyString) true;
   EvMeshRead; EvIfstreamClose] ++
  repeat EvUniformRefinement (Z.to_nat (ref_levels (Mesh_read contents))) ++
  [EvFiniteElementSpace; EvLinearFormAssemble; EvGridFunctionAssign;
   EvBilinearFormAssemble; EvEliminateEssentialBC; EvFinalize;
   EvGSSmoother;
   EvPCG 1 200 1e-12 1e-28 (fst (solver_result contents));
   EvOfstreamOpen "sol.gf" (can_create env "sol.gf");
   EvWrite (OFile "sol.gf") (GridFunction_Save (x o));
   EvSockConnect "localhost" 19916 (can_connect env "localhost" 19916%Z);
   EvWrite (OSock "localhost" 19916)
     (String.append
        (if (Dimension (mesh o) =? 2)%Z then "fem2d_gf_data"
         else "fem3d_gf_data") nl);
   EvWrite (OSock "localhost" 19916) (Mesh_Print (mesh o));
   EvWrite (OSock "localhost" 19916) (GridFunction_Save (x o));
   EvSockSend;
   EvDelete "a"; EvDelete "b"; EvDelete "fespace"; EvDelete "fec";
   EvDelete "mesh"].
Proof.
  intros Hargc Hfile o. rewrite (run_main_ok env contents Hargc Hfile).
  cbn [snd]. unfold solve_trace, file_trace, socket_trace, free_trace,
    socket_tag. fold o.
  rewrite <- !app_assoc. reflexivity.
Qed.

End Footprint.

Lemma main_footprint_witness :
  run_main (L := sample_library) sample_env =
  run_main (L := sample_library) busy_env /\
  map forget_outcome (snd (run_main (L := sample_library) sample_env)) =
  map forget_outcome (snd (run_main (L := sample_library) readonly_env)).
Proof.
  split.
  - refine (proj2 (proj2 (main_footprint (L := sample_library)
                            sample_env busy_env _ _ _)) _ _);
      reflexivity.
  - refine (proj1 (proj2 (main_footprint (L := sample_library)
                            sample_env readonly_env _ _ _)));
      reflexivity.
Defined.

Lemma main_call_sequence_witness :
  exists before,
    snd (run_main (L := sample_library) readonly_env) =
    before ++
    [EvSockSend; EvDelete "a"; EvDelete "b"; EvDelete "fespace";
     EvDelete "fec"; EvDelete "mesh"].
Proof.
  eexists.
  rewrite (main_call_sequence (L := sample_library) readonly_env "square");
    [|discriminate|reflexivity].
  cbv zeta.
  change [EvFiniteElementSpace; EvLinearFormAssemble; EvGridFunctionAssign;
          EvBilinearFormAssemble; EvEliminateEssentialBC; EvFinalize;
          EvGSSmoother;
          EvPCG 1 200 1e-12 1e-28
            (fst (solver_result (L := sample_library) "square"));
          ?a; ?b; ?c; ?d; ?e; ?f; EvSockSend;
          EvDelete "a"; EvDelete "b"; EvDelete "fespace"; EvDelete "fec";
          EvDelete "mesh"]
    with ([EvFiniteElementSpace; EvLinearFormAssemble; EvGridFunctionAssign;
           EvBilinearFormAssemble; EvEliminateEssentialBC; EvFinalize;
           EvGSSmoother;
           EvPCG 1 200 1e-12 1e-28
             (fst (solver_result (L := sample_library) "square"));
           a; b; c; d; e; f] ++
          [EvSockSend; EvDelete "a"; EvDelete "b"; EvDelete "fespace";
           EvDelete "fec"; EvDelete "mesh"]).
  rewrite !app_assoc. reflexivity.
Defined.

(** ** The number of refinements, on the integers *)

Lemma Int_part_le (u v : R) : (u <= v)%R -> (Int_part u <= Int_part v)%Z.
Proof.
  intros H. apply Int_part_ge.
  apply Rle_trans with u; [apply base_Int_part | exact H].
Qed.

Lemma Rdiv_le_pos (u v c : R) :
  (0 < c)%R -> (u <= v)%R -> (u / c <= v / c)%R.
Proof.
  intros Hc H. unfold Rdiv. apply Rmult_le_compat_r; [|exact H].
  left. now apply Rinv_0_lt_compat.
Qed.

Section RefinementCount.
Context {L : Library}.

(** X5. On a mesh of [NE > 0] elements and dimension [Dim > 0] the loop of
    step 2 calls [UniformRefinement] exactly
    [floor (log2 (50000 div NE) / Dim)] times when [NE <= 50000], and not
    at all otherwise: the count computed with logarithms and the one
    computed on the integers agree. *)
Theorem refinement_calls_integer (imesh : string) :
  (0 < GetNE (Mesh_read imesh))%Z ->
  (0 < Dimension (Mesh_read imesh))%Z ->
  count is_refinement (snd (runState (solve_stages imesh) [])) =
  refinement_count (Mesh_read imesh).
Proof.
  intros HNE HDim. rewrite run_solve_stages. cbn [snd app].
  rewrite count_refinement_solve_trace. now apply ref_levels_count.
Qed.

(** X6. Whatever the mesh (of positive element count and dimension), the
    loop of step 2 calls [UniformRefinement] at most 15 times, and the
    number of calls times the dimension is at most 15 (the integer part of
    [log2 50000]). *)
Theorem refinement_calls_bounded (imesh : string) :
  (0 < GetNE (Mesh_read imesh))%Z ->
  (0 < Dimension (Mesh_read imesh))%Z ->
  let calls := count is_refinement (snd (runState (solve_stages imesh) [])) in
  (Z.of_nat calls * Dimension (Mesh_read imesh) <= 15)%Z /\
  (calls <= 15)%nat.
Proof.
  intros HNE HDim calls.
  assert (Hcalls : calls = refinement_count (Mesh_read imesh)).
  { unfold calls. rewrite run_solve_stages. cbn [snd app].
    rewrite count_refinement_solve_trace. now apply ref_levels_count. }
  rewrite Hcalls. unfold refinement_count.
  set (NE := GetNE (Mesh_read imesh)) in *.
  set (D := Dimension (Mesh_read imesh)) in *.
  destruct (Z.leb_spec NE 50000) as [Hle|Hgt]; [|cbn; lia].
  assert (Hq : (0 <= 50000 / NE <= 50000)%Z).
  { split; [apply Z.div_pos; lia|].
    apply Z.div_le_upper_bound; [lia|]. nia. }
  assert (Hlog : (0 <= Z.log2 (50000 / NE) <= 15)%Z).
  { split; [apply Z.log2_nonneg|].
    change 15%Z with (Z.log2 50000). apply Z.log2_le_mono. lia. }
  pose proof (Z.mul_div_le (Z.log2 (50000 / NE)) D HDim) as Hmul.
  assert (Hg : (0 <= Z.log2 (50000 / NE) / D)%Z) by (apply Z.div_pos; lia).
  rewrite Z2Nat.id by exact Hg. split; [lia|].
  apply Nat2Z.inj_le. rewrite Z2Nat.id by exact Hg. nia.
Qed.

(** X9. On a mesh of positive element count and dimension the loop of step
    2 leaves the mesh as read exactly when one refinement would already
    pass 50000 elements, that is when [NE * 2 ^ Dim > 50000]. *)
Theorem no_refinement_iff (imesh : string) :
  (0 < GetNE (Mesh_read imesh))%Z ->
  (0 < Dimension (Mesh_read imesh))%Z ->
  count is_refinement (snd (runState (solve_stages imesh) [])) = O <->
  (50000 < GetNE (Mesh_read imesh) * 2 ^ Dimension (Mesh_read imesh))%Z.
Proof.
  intros HNE HDim. rewrite run_solve_stages. cbn [snd app].
  rewrite count_refinement_solve_trace.
  pose proof (ref_levels_spec (Mesh_read imesh) 1 HNE HDim ltac:(lia)) as H1.
  rewrite Z.pow_1_r in H1. split; intros H.
  - apply Z.nle_gt. intros Hle. apply H1 in Hle. lia.
  - destruct (Z.le_gt_cases 1 (ref_levels (Mesh_read imesh))) as [Hge|Hlt];
      [apply H1 in Hge; lia | lia].
Qed.

End RefinementCount.

(** X7. Between two meshes of the same positive dimension, the one with
    more elements gets no more refinement levels: [ref_levels] does not
    increase with the element count. *)
Theorem ref_levels_antitone_elements (m1 m2 : Mesh) :
  Dimension m1 = Dimension m2 ->
  (0 < Dimension m1)%Z ->
  (0 < GetNE m1 <= GetNE m2)%Z ->
  (ref_levels m2 <= ref_levels m1)%Z /\
  (Z.to_nat (ref_levels m2) <= Z.to_nat (ref_levels m1))%nat.
Proof.
  intros Hdim HD [H1 H12].
  assert (Hle : (ref_levels m2 <= ref_levels m1)%Z).
  { unfold ref_levels. rewrite <- Hdim. apply Int_part_le.
    assert (Hr1 : (0 < IZR (GetNE m1))%R) by now apply IZR_lt.
    assert (Hr12 : (IZR (GetNE m1) <= IZR (GetNE m2))%R) by now apply IZR_le.
    assert (Hr2 : (0 < IZR (GetNE m2))%R) by lra.
    apply Rdiv_le_pos; [now apply IZR_lt|].
    apply Rdiv_le_pos; [apply ln_2_pos|].
    apply ln_le_iff; try (apply Rdiv_lt_0_compat; lra).
    unfold Rdiv. apply Rmult_le_compat_l; [lra|].
    now apply Rinv_le_contravar. }
  split; [exact Hle | lia].
Qed.

(** X8. Between two meshes of the same element count, at most 50000, the
    one of higher dimension gets no more refinement levels. *)
Theorem ref_levels_antitone_dimension (m1 m2 : Mesh) :
  GetNE m1 = GetNE m2 ->
  (0 < GetNE m1 <= 50000)%Z ->
  (0 < Dimension m1 <= Dimension m2)%Z ->
  (ref_levels m2 <= ref_levels m1)%Z /\
  (Z.to_nat (ref_levels m2) <= Z.to_nat (ref_levels m1))%nat.
Proof.
  intros HNE [H1 H5] [HD1 HD12].
  assert (Hle : (ref_levels m2 <= ref_levels m1)%Z).
  { unfold ref_levels. rewrite <- HNE. apply Int_part_le.
    assert (Hr1 : (0 < IZR (GetNE m1))%R) by now apply IZR_lt.
    assert (Hr5 : (IZR (GetNE m1) <= 50000)%R) by now apply IZR_le.
    assert (Hd1 : (0 < IZR (Dimension m1))%R) by now apply IZR_lt.
    assert (Hd12 : (IZR (Dimension m1) <= IZR (Dimension m2))%R)
      by now apply IZR_le.
    assert (Hq : (0 <= ln (50000 / IZR (GetNE m1)) / ln 2)%R).
    { apply Rmult_le_pos; [|left; apply Rinv_0_lt_compat, ln_2_pos].
      rewrite <- ln_1. apply ln_le_iff; [lra| |].
      - apply Rdiv_lt_0_compat; lra.
      - apply quotient_ge; lra. }
    unfold Rdiv at 1 3. apply Rmult_le_compat_l; [exact Hq|].
    apply Rinv_le_contravar; assumption. }
  split; [exact Hle | lia].
Qed.

Lemma refinement_calls_integer_witness :
  count is_refinement
    (snd (runState (solve_stages (L := sample_library) "square") [])) = 6%nat.
Proof.
  refine (refinement_calls_integer (L := sample_library) "square" _ _);
    reflexivity.
Defined.

Lemma refinement_calls_bounded_witness :
  (count is_refinement
     (snd (runState (solve_stages (L := sample_library) "square") []))
   <= 15)%nat.
Proof.
  refine (proj2 (refinement_calls_bounded (L := sample_library) "square" _ _));
    reflexivity.
Defined.

Lemma no_refinement_iff_witness :
  count is_refinement
    (snd (runState (solve_stages (L := sample_library) "square") [])) <> O.
Proof.
  intros H.
  apply (no_refinement_iff (L := sample_library) "square") in H;
    [|reflexivity|reflexivity].
  vm_compute in H. discriminate H.
Defined.

Lemma ref_levels_antitone_elements_witness :
  (ref_levels crowded_mesh <= ref_levels square_mesh)%Z.
Proof.
  refine (proj1 (ref_levels_antitone_elements square_mesh crowded_mesh _ _ _)).
  - reflexivity.
  - reflexivity.
  - split; [reflexivity|].
    unfold GetNE. cbn [crowded_mesh square_mesh elements].
    rewrite repeat_length, Z2Nat.id by lia. cbn. lia.
Defined.

Lemma ref_levels_antitone_dimension_witness :
  (ref_levels tet_mesh <= ref_levels square_mesh)%Z.
Proof.
  refine (proj1 (ref_levels_antitone_dimension square_mesh tet_mesh _ _ _)).
  - reflexivity.
  - split; [reflexivity|]. cbn. lia.
  - split; [reflexivity|]. cbn. lia.
Defined.

